(** * binoculars, SIXS backend (binoculars/backends/sixs.py)

    A shallow embedding of the SIXS input backend: the job generator, the
    rotation and projection arithmetic, the kinematic chains, the frame
    loop of [process_job], the mask loader and the [detrot] option.

    Conventions.
    - Python integers are [Z].
    - The one float that decides control flow, the product
      [target_weight * 1.4] of [generate_jobs], is a binary64 value
      ([PrimFloat]), rounded as Python rounds it.
    - The matrix arithmetic (numpy float64 arrays, [math.cos], [math.sin],
      [numpy.linalg.inv]) is read over the real numbers: every float
      operation stands for the exact operation it rounds.
    - A call that can raise returns a [result]: [Ok v] or [Raise e]. *)

From Stdlib Require Import ZArith List String Ascii Bool Lia.
From Stdlib Require Import Floats Uint63.
From Stdlib Require Import Reals Lra.
From Stdlib Require Import DecimalString.
Import ListNotations.

Set Implicit Arguments.

(* ================================================================== *)
(** * Exceptions *)
(* ================================================================== *)

(** The exception classes the module raises or lets through.  An
    exception carries [args]; the module only ever reads or extends the
    message, the first of them. *)
Inductive exn_class : Type :=
| NotImplementedError
| ValueError
| IOError
| ConfigError
| TypeError
| KeyError
| LinAlgError
| NetworkXNoPath
| NodeNotFound
| OtherError.

Record exn : Type := mkExn { exn_kind : exn_class; exn_args : list string }.

Inductive result (A : Type) : Type :=
| Ok (v : A)
| Raise (e : exn).
Arguments Ok {A} v.
Arguments Raise {A} e.

Definition bind {A B : Type} (r : result A) (k : A -> result B) : result B :=
  match r with
  | Ok v => k v
  | Raise e => Raise e
  end.

Notation "x <- r ;; k" := (bind r (fun x => k))
  (at level 61, r at next level, right associativity).

(* ================================================================== *)
(** * Jobs (SIXS.generate_jobs, lines 363-386) *)
(* ================================================================== *)

Section Jobs.
Local Open Scope Z_scope.

(** [backend.Job(scan=, firstpoint=, lastpoint=, weight=)]. *)
Record Job : Type := mkJob {
  scan : Z;
  firstpoint : Z;
  lastpoint : Z;
  weight : Z
}.

(** A Python [slice(start, stop)]. *)
Record slice : Type := mkSlice { slice_start : Z; slice_stop : Z }.

(** [range(n)] as a list of integers. *)
Definition range (n : Z) : list Z := map Z.of_nat (seq 0 (Z.to_nat n)).

(** Modelled from the spec: [util.chunk_slicer(count, chunksize)] is not
    among the sources.  The spec (4.5) has it emit consecutive chunks of
    [chunksize] points and then one final chunk that covers the
    remainder, of between 1 and [chunksize] points.  So the full chunks
    number [(count - 1) / chunksize]: a remainder of exactly [chunksize]
    points is the final chunk. *)
Definition chunk_slicer (count chunksize : Z) : list slice :=
  let full := (count - 1) / chunksize in
  map (fun i => mkSlice (i * chunksize) ((i + 1) * chunksize)) (range full)
  ++ [mkSlice (full * chunksize) count].

(** An integer as a float, as Python's [int * float] and [int > float]
    take it: exact for the integers from 0 to 2^53, the range of a point
    count and of a target weight. *)
Definition float_of_int (z : Z) : float := PrimFloat.of_uint63 (Uint63.of_Z z).

(** The literal [1.4]: the binary64 value nearest to 7/5. *)
Definition f1_4 : float := 0x1.6666666666666p+0%float.

(** [pointcount > self.config.target_weight * 1.4] (line 375). *)
Definition over_threshold (pointcount target_weight : Z) : bool :=
  PrimFloat.ltb (PrimFloat.mul (float_of_int target_weight) f1_4)
                (float_of_int pointcount).

(** What [generate_jobs] reads of [self.config]. *)
Record JobConfig : Type := mkJobConfig {
  pr : option (Z * Z);
  target_weight : Z
}.

(** Lines 369-374: the first point and the number of points of a scan,
    from the [pr] option when it is set, from the scan file otherwise. *)
Definition point_range (config : JobConfig) (get_pointcount : Z -> Z)
    (scanno : Z) : Z * Z :=
  match pr config with
  | Some (pr0, pr1) => (pr0, pr1 - pr0 + 1)
  | None => (0, get_pointcount scanno)
  end.

(** The body of the [for scanno in scans] loop: the jobs of one scan.
    [get_pointcount] reads the number of images of the scan file. *)
Definition generate_jobs_scan (config : JobConfig) (get_pointcount : Z -> Z)
    (scanno : Z) : list Job :=
  let '(start, pointcount) := point_range config get_pointcount scanno in
  if over_threshold pointcount (target_weight config) then
    map (fun s => mkJob scanno (start + slice_start s) (start + slice_stop s - 1)
                        (slice_stop s - slice_start s))
        (chunk_slicer pointcount (target_weight config))
  else
    [mkJob scanno start (start + pointcount - 1) pointcount].

(** [generate_jobs]: the scans selected on the command line, in order,
    each split on its own.  The generator is read as the list of the
    jobs it yields. *)
Definition generate_jobs (config : JobConfig) (get_pointcount : Z -> Z)
    (scans : list Z) : list Job :=
  flat_map (generate_jobs_scan config get_pointcount) scans.

(** ** What the spec asks of the jobs of one scan *)

(** The jobs tile the points from [first] up to, not including, [next]:
    each one starts where the one before stopped, holds at least one
    point, and has the number of its points for weight. *)
Fixpoint tiles (first : Z) (jobs : list Job) (next : Z) : Prop :=
  match jobs with
  | [] => first = next
  | j :: rest =>
      firstpoint j = first /\ firstpoint j <= lastpoint j /\
      weight j = lastpoint j - firstpoint j + 1 /\
      tiles (lastpoint j + 1) rest next
  end.

(** Strictly ordered, without overlap: a job ends before every later
    job begins. *)
Definition strictly_ordered (jobs : list Job) : Prop :=
  forall i j a b, (i < j)%nat ->
    nth_error jobs i = Some a -> nth_error jobs j = Some b ->
    firstpoint a <= lastpoint a /\ lastpoint a < firstpoint b.

(** Contiguous: a job begins one point after the job before it ends. *)
Definition contiguous (jobs : list Job) : Prop :=
  forall i a b,
    nth_error jobs i = Some a -> nth_error jobs (S i) = Some b ->
    firstpoint b = lastpoint a + 1.

(** The jobs begin at [start] and end at the last of [count] points. *)
Definition covers (start count : Z) (jobs : list Job) : Prop :=
  exists j0 jn,
    hd_error jobs = Some j0 /\ nth_error jobs (List.length jobs - 1) = Some jn /\
    firstpoint j0 = start /\ lastpoint jn = start + count - 1.

(** The weight of a job is the length of its inclusive range. *)
Definition weight_is_length (j : Job) : Prop :=
  weight j = lastpoint j - firstpoint j + 1.

Definition total_weight (jobs : list Job) : Z :=
  fold_right Z.add 0 (map weight jobs).

End Jobs.

(* ================================================================== *)
(** * Rotation matrices and array arithmetic (lines 293-354) *)
(* ================================================================== *)

Section Arithmetic.
Local Open Scope R_scope.

(** A 3-vector such as an axis [[x, y, z]], and a 3x3 numpy array as its
    three rows. *)
Definition vec : Type := (R * R * R)%type.
Definition mat : Type := (vec * vec * vec)%type.

Definition identity : mat := ((1, 0, 0), (0, 1, 0), (0, 0, 1)).

(** [M(theta, u)] (lines 293-313). *)
Definition M (theta : R) (u : vec) : mat :=
  let '(u0, u1, u2) := u in
  let c := cos theta in
  let one_minus_c := 1 - c in
  let s := sin theta in
  ((c + u0 ^ 2 * one_minus_c,
    u0 * u1 * one_minus_c - u2 * s,
    u0 * u2 * one_minus_c + u1 * s),
   (u0 * u1 * one_minus_c + u2 * s,
    c + u1 ^ 2 * one_minus_c,
    u1 * u2 * one_minus_c - u0 * s),
   (u0 * u2 * one_minus_c - u1 * s,
    u1 * u2 * one_minus_c + u0 * s,
    c + u2 ^ 2 * one_minus_c)).

(** A unit vector: the squares of its entries add up to 1. *)
Definition unit_vector (u : vec) : Prop :=
  let '(u0, u1, u2) := u in u0 ^ 2 + u1 ^ 2 + u2 ^ 2 = 1.

(** [numpy.dot] of a 3x3 array and a 3-vector. *)
Definition dot_vec (a : mat) (v : vec) : vec :=
  let '((a00, a01, a02), (a10, a11, a12), (a20, a21, a22)) := a in
  let '(v0, v1, v2) := v in
  (a00 * v0 + a01 * v1 + a02 * v2,
   a10 * v0 + a11 * v1 + a12 * v2,
   a20 * v0 + a21 * v1 + a22 * v2).

(** [numpy.dot] of two 3x3 arrays. *)
Definition dot (a b : mat) : mat :=
  let '((a00, a01, a02), (a10, a11, a12), (a20, a21, a22)) := a in
  let '((b00, b01, b02), (b10, b11, b12), (b20, b21, b22)) := b in
  ((a00 * b00 + a01 * b10 + a02 * b20,
    a00 * b01 + a01 * b11 + a02 * b21,
    a00 * b02 + a01 * b12 + a02 * b22),
   (a10 * b00 + a11 * b10 + a12 * b20,
    a10 * b01 + a11 * b11 + a12 * b21,
    a10 * b02 + a11 * b12 + a12 * b22),
   (a20 * b00 + a21 * b10 + a22 * b20,
    a20 * b01 + a21 * b11 + a22 * b21,
    a20 * b02 + a21 * b12 + a22 * b22)).

Definition transpose (a : mat) : mat :=
  let '((a00, a01, a02), (a10, a11, a12), (a20, a21, a22)) := a in
  ((a00, a10, a20), (a01, a11, a21), (a02, a12, a22)).

Definition det (a : mat) : R :=
  let '((a00, a01, a02), (a10, a11, a12), (a20, a21, a22)) := a in
  a00 * (a11 * a22 - a12 * a21)
  - a01 * (a10 * a22 - a12 * a20)
  + a02 * (a10 * a21 - a11 * a20).

(** [numpy.linalg.inv]: the inverse of a 3x3 array, [LinAlgError] on a
    singular one. *)
Definition inv (a : mat) : result mat :=
  let '((a00, a01, a02), (a10, a11, a12), (a20, a21, a22)) := a in
  let d := det a in
  if Req_dec_T d 0 then Raise (mkExn LinAlgError ["Singular matrix"%string])
  else Ok (((a11 * a22 - a12 * a21) / d,
            (a02 * a21 - a01 * a22) / d,
            (a01 * a12 - a02 * a11) / d),
           ((a12 * a20 - a10 * a22) / d,
            (a00 * a22 - a02 * a20) / d,
            (a02 * a10 - a00 * a12) / d),
           ((a10 * a21 - a11 * a20) / d,
            (a01 * a20 - a00 * a21) / d,
            (a00 * a11 - a01 * a10) / d)).

(** [zip_with(f, xs, ys)] (lines 327-328): [f] over the pairs of [zip],
    which stops at the shorter list. *)
Fixpoint zip_with {A B C : Type} (f : A -> B -> C) (xs : list A) (ys : list B)
    : list C :=
  match xs, ys with
  | x :: xs', y :: ys' => f x y :: zip_with f xs' ys'
  | _, _ => []
  end.

(** [functools.reduce(f, xs)] with no initial value: [TypeError] on an
    empty sequence. *)
Definition reduce {A : Type} (f : A -> A -> A) (xs : list A) : result A :=
  match xs with
  | [] => Raise (mkExn TypeError
             ["reduce() of empty sequence with no initial value"%string])
  | x :: rest => Ok (fold_left f rest x)
  end.

(** [rotation_matrix(values, axes)] (lines 331-340). *)
Definition rotation_matrix (values : list R) (axes : list vec) : result mat :=
  reduce dot (zip_with M values axes).

(** An H x W numpy array, by rows; a 3 x H x W array as its three planes. *)
Definition grid : Type := list (list R).
Definition arr3 : Type := (grid * grid * grid)%type.

Definition grid_map (f : R -> R) (g : grid) : grid := map (map f) g.

Definition grid_zip (f : R -> R -> R) (g1 g2 : grid) : grid :=
  zip_with (zip_with f) g1 g2.

(** [numpy.linalg.norm(a, 2, axis=0)]: the square root of the sum over
    the first axis of the squares. *)
Definition norm_axis0 (a : arr3) : grid :=
  let '(a0, a1, a2) := a in
  grid_map sqrt
    (grid_zip Rplus (grid_zip Rplus (grid_zip Rmult a0 a0) (grid_zip Rmult a1 a1))
                    (grid_zip Rmult a2 a2)).

(** The divisors of [normalized]: the norms, [l2[l2 == 0] = 1] applied
    (lines 352-353). *)
Definition normalized_l2 (a : arr3) : grid :=
  let l2 := norm_axis0 a in
  grid_map (fun x => if Req_dec_T x 0 then 1 else x) l2.

(** [normalized(a, axis=0)] (lines 351-354), as the projections call it
    on the pixel array: [a / numpy.expand_dims(l2, 0)]. *)
Definition normalized (a : arr3) : arr3 :=
  let l2 := normalized_l2 a in
  let '(a0, a1, a2) := a in
  (grid_zip Rdiv a0 l2, grid_zip Rdiv a1 l2, grid_zip Rdiv a2 l2).

(** [numpy.tensordot(m, a, axes=1)]: the last axis of [m] contracted
    with the first axis of [a]. *)
Definition tensordot (m : mat) (a : arr3) : arr3 :=
  let '(r0, r1, r2) := m in
  let '(a0, a1, a2) := a in
  let row (r : vec) : grid :=
    let '(m0, m1, m2) := r in
    grid_zip Rplus
      (grid_zip Rplus (grid_map (Rmult m0) a0) (grid_map (Rmult m1) a1))
      (grid_map (Rmult m2) a2) in
  (row r0, row r1, row r2).

(** [a - v[:, numpy.newaxis, numpy.newaxis]]: plane [c] less [v[c]]. *)
Definition sub_broadcast (a : arr3) (v : vec) : arr3 :=
  let '(a0, a1, a2) := a in
  let '(v0, v1, v2) := v in
  (grid_map (fun x => x - v0) a0,
   grid_map (fun x => x - v1) a1,
   grid_map (fun x => x - v2) a2).

(** [a * k] for a scalar [k]. *)
Definition scale (a : arr3) (k : R) : arr3 :=
  let '(a0, a1, a2) := a in
  (grid_map (fun x => x * k) a0,
   grid_map (fun x => x * k) a1,
   grid_map (fun x => x * k) a2).

End Arithmetic.

(* ================================================================== *)
(** * Projections (lines 55-142) *)
(* ================================================================== *)

Section Projections.
Local Open Scope R_scope.

(** [PDataFrame(pixels, k, ub, R, P)] (line 55). *)
Record PDataFrame : Type := mkPDataFrame {
  pdf_pixels : arr3;
  pdf_k : R;
  pdf_ub : mat;
  pdf_R : mat;
  pdf_P : mat
}.

(** [HKLProjection.project] (lines 83-98). *)
Definition HKLProjection_project (pdataframe : PDataFrame)
    : result (grid * grid * grid) :=
  let '(mkPDataFrame pixels k UB R P) := pdataframe in
  let ki : vec := (1, 0, 0) in
  RUB_1 <- inv (dot R UB) ;;
  let RUB_1P := dot RUB_1 P in
  let kf := normalized pixels in
  let hkl_f := tensordot RUB_1P kf in
  let hkl_i := dot_vec RUB_1 ki in
  let hkl := sub_broadcast hkl_f hkl_i in
  let '(h, k, l) := scale hkl k in
  Ok (h, k, l).

(** [HKProjection.project] (lines 105-107). *)
Definition HKProjection_project (pdataframe : PDataFrame)
    : result (grid * grid) :=
  hkl <- HKLProjection_project pdataframe ;;
  let '(h, k, l) := hkl in
  Ok (h, k).

(** [QxQyQzProjection.project] (lines 114-139).  [UB] is assigned twice;
    the second assignment shadows the first. *)
Definition QxQyQzProjection_project (pdataframe : PDataFrame)
    : result (grid * grid * grid) :=
  let '(mkPDataFrame pixels k _ R P) := pdataframe in
  let UB : mat := ((2 * PI, 0, 0),
                   (0, 0, 2 * PI),
                   (0, -2 * PI, 0)) in
  let UB : mat := ((2 * PI, 0, 0),
                   (0, 2 * PI, 0),
                   (0, 0, 2 * PI)) in
  let ki : vec := (1, 0, 0) in
  RUB_1 <- inv (dot R UB) ;;
  let RUB_1P := dot RUB_1 P in
  let kf := normalized pixels in
  let hkl_f := tensordot RUB_1P kf in
  let hkl_i := dot_vec RUB_1 ki in
  let hkl := sub_broadcast hkl_f hkl_i in
  let '(qx, qy, qz) := scale hkl k in
  Ok (qx, qy, qz).

(** ** The transform in the words of the spec

    One pixel at a time: the outgoing direction is the pixel position
    divided by its length (by 1 when the length is 0). *)
Definition direction (p : vec) : vec :=
  let '(x, y, z) := p in
  let n := sqrt (x * x + y * y + z * z) in
  let n := if Req_dec_T n 0 then 1 else n in
  (x / n, y / n, z / n).

Definition vec_sub (a b : vec) : vec :=
  let '(a0, a1, a2) := a in
  let '(b0, b1, b2) := b in
  (a0 - b0, a1 - b1, a2 - b2).

Definition vec_scale (a : vec) (k : R) : vec :=
  let '(a0, a1, a2) := a in (a0 * k, a1 * k, a2 * k).

(** The spec's HKL of one pixel (4.3): inverse(R.UB) applied to the
    outgoing direction and to the incident direction (1,0,0), the
    difference scaled by [k]. *)
Definition hkl_of_pixel_spec (RUB_1 : mat) (k : R) (p : vec) : vec :=
  vec_scale (vec_sub (dot_vec RUB_1 (direction p)) (dot_vec RUB_1 (1, 0, 0))) k.

(** The same with the detector rotation: inverse(R.UB).P applied to the
    outgoing direction, inverse(R.UB) to the incident one. *)
Definition hkl_of_pixel (RUB_1 P : mat) (k : R) (p : vec) : vec :=
  vec_scale (vec_sub (dot_vec (dot RUB_1 P) (direction p))
                     (dot_vec RUB_1 (1, 0, 0))) k.

(** The substitute UB of the spec's Qx/Qy/Qz: 2 pi on the diagonal. *)
Definition diag_2pi : mat :=
  ((2 * PI, 0, 0), (0, 2 * PI, 0), (0, 0, 2 * PI)).

(** The matrix of the first assignment to [UB] (lines 121-123). *)
Definition UB_first : mat :=
  ((2 * PI, 0, 0), (0, 0, 2 * PI), (0, -2 * PI, 0)).

(** Entry [(i, j)] of an H x W array; 0 outside it. *)
Definition grid_at (g : grid) (i j : nat) : R := nth j (nth i g []) 0.

(** The pixel [(i, j)] of a 3 x H x W array: one entry of each plane. *)
Definition pixel_at (a : arr3) (i j : nat) : vec :=
  let '(a0, a1, a2) := a in (grid_at a0 i j, grid_at a1 i j, grid_at a2 i j).

(** [g] has H rows of W entries. *)
Definition has_shape (H W : nat) (g : grid) : Prop :=
  List.length g = H /\ Forall (fun row => List.length row = W) g.

Definition arr3_shape (H W : nat) (a : arr3) : Prop :=
  let '(a0, a1, a2) := a in
  has_shape H W a0 /\ has_shape H W a1 /\ has_shape H W a2.

End Projections.

(* ================================================================== *)
(** * Kinematic chains (get_axes, lines 169-212) *)
(* ================================================================== *)

Section Kinematics.
Local Open Scope string_scope.

Definition ZAXIS : string := "ZAXIS".
Definition SOLEIL_SIXS_MED1_2 : string := "SOLEIL SIXS MED1+2".

(** [Rotation(axis, value)] (line 171). *)
Record Rotation : Type := mkRotation { axis : list Z; value : Z }.

(** A networkx [DiGraph]: the nodes in insertion order, each with its
    [transformation] attribute when it has one, and the edges. *)
Record DiGraph : Type := mkDiGraph {
  nodes : list (string * option Rotation);
  edges : list (string * string)
}.

Definition empty_graph : DiGraph := mkDiGraph [] [].

Definition has_node (g : DiGraph) (n : string) : bool :=
  existsb (fun p => String.eqb (fst p) n) (nodes g).

(** [graph.add_node(n, transformation=t)]: a new node, or the attribute
    of the node already there. *)
Definition add_node (g : DiGraph) (n : string) (t : Rotation) : DiGraph :=
  if has_node g n then
    mkDiGraph (map (fun p => if String.eqb (fst p) n then (n, Some t) else p)
                   (nodes g))
              (edges g)
  else mkDiGraph (nodes g ++ [(n, Some t)]) (edges g).

Definition add_edge (g : DiGraph) (e : string * string) : DiGraph :=
  let '(u, v) := e in
  let g := if has_node g u then g
           else mkDiGraph (nodes g ++ [(u, None)]) (edges g) in
  let g := if has_node g v then g
           else mkDiGraph (nodes g ++ [(v, None)]) (edges g) in
  if existsb (fun e' => String.eqb (fst e') u && String.eqb (snd e') v) (edges g)
  then g
  else mkDiGraph (nodes g) (edges g ++ [(u, v)]).

(** [graph.add_edges_from(es)]. *)
Definition add_edges_from (g : DiGraph) (es : list (string * string)) : DiGraph :=
  fold_left add_edge es g.

Definition successors (g : DiGraph) (u : string) : list string :=
  map snd (filter (fun e => String.eqb (fst e) u) (edges g)).

(** Breadth-first search over the paths from the source, each held last
    node first: the first path that reaches [target] is a shortest one. *)
Fixpoint search (fuel : nat) (g : DiGraph) (target : string)
    (frontier : list (list string)) : option (list string) :=
  match fuel with
  | O => None
  | S fuel' =>
      match find (fun p => match p with
                           | v :: _ => String.eqb v target
                           | [] => false
                           end) frontier with
      | Some p => Some (rev p)
      | None =>
          search fuel' g target
            (flat_map (fun p => match p with
                                | v :: _ => map (fun w => w :: p) (successors g v)
                                | [] => []
                                end) frontier)
      end
  end.

(** [networkx.dijkstra_path(g, source, target)] on unit edge weights: a
    shortest path as the list of its nodes.  A shortest path has at most
    as many nodes as the graph, which bounds the search. *)
Definition dijkstra_path (g : DiGraph) (source target : string)
    : result (list string) :=
  if has_node g source then
    match search (List.length (nodes g)) g target [[source]] with
    | Some p => Ok p
    | None => Raise (mkExn NetworkXNoPath
                      ["No path to " ++ target ++ "."])
    end
  else Raise (mkExn NodeNotFound ["Node " ++ source ++ " not found in graph"]).

(** [Axes(sample, detector, graph)] (line 169). *)
Record Axes : Type := mkAxes {
  sample : list string;
  detector : list string;
  graph : DiGraph
}.

(** [get_axes(name)] (lines 174-212). *)
Definition get_axes (name : string) : result Axes :=
  let graph := empty_graph in
  if String.eqb name ZAXIS then
    let graph := add_node graph "mu" (mkRotation [0; 0; 1]%Z 0) in
    let graph := add_node graph "omega" (mkRotation [0; -1; 0]%Z 0) in
    let graph := add_node graph "delta" (mkRotation [0; -1; 0]%Z 0) in
    let graph := add_node graph "gamma" (mkRotation [0; 0; 1]%Z 0) in
    let graph := add_edges_from graph [("mu", "omega");
                                       ("mu", "delta"); ("delta", "gamma")] in
    sample <- dijkstra_path graph "mu" "omega" ;;
    detector <- dijkstra_path graph "mu" "gamma" ;;
    Ok (mkAxes sample detector graph)
  else if String.eqb name SOLEIL_SIXS_MED1_2 then
    let graph := add_node graph "pitch" (mkRotation [0; -1; 0]%Z 0) in
    let graph := add_node graph "mu" (mkRotation [0; 0; 1]%Z 0) in
    let graph := add_node graph "gamma" (mkRotation [0; 0; 1]%Z 0) in
    let graph := add_node graph "delta" (mkRotation [0; -1; 0]%Z 0) in
    let graph := add_edges_from graph [("pitch", "mu");
                                       ("pitch", "gamma"); ("gamma", "delta")] in
    sample <- dijkstra_path graph "pitch" "mu" ;;
    detector <- dijkstra_path graph "pitch" "delta" ;;
    Ok (mkAxes sample detector graph)
  else
    Raise (mkExn NotImplementedError
             ["not yet supported diffractometer type:" ++ name]).

End Kinematics.

(* ================================================================== *)
(** * The frame loop (SIXS.process_job, lines 357-401) *)
(* ================================================================== *)

Section FrameLoop.
Local Open Scope string_scope.

(** The two attributes of a [SIXS] object that [process_job] reads. *)
Record SIXS : Type := mkSIXS {
  dbg_scanno : option Z;
  dbg_pointno : option Z
}.

(** The class attributes (lines 360-361).  No statement of the module
    assigns either of them, so every instance reads these. *)
Definition SIXS_attributes : SIXS := mkSIXS None None.

(** [str.format] of a field that holds [None] or an integer. *)
Definition format_field (o : option Z) : string :=
  match o with
  | None => "None"
  | Some z => NilZero.string_of_int (Z.to_int z)
  end.

(** The text [process_job] adds to the message (line 399). *)
Definition error_note (self : SIXS) : string :=
  ", An error occured for scan " ++ format_field (dbg_scanno self)
  ++ " at point " ++ format_field (dbg_pointno self)
  ++ ". See above for more information".

(** Modelled from the spec: [errors.addmessage(args, errormsg)] is not
    among the sources.  The spec (4.4) has the error annotated: the text
    is added to the message the exception carries. *)
Definition addmessage (args : list string) (errormsg : string) : list string :=
  match args with
  | [] => [errormsg]
  | arg0 :: rest => (arg0 ++ errormsg) :: rest
  end.

(** A run of a generator: what it yielded, and the exception that ended
    it, if one did. *)
Record trace (A : Type) : Type := mkTrace {
  yielded : list A;
  raised : option exn
}.

(** [range(a, b)]. *)
Definition range_from (a b : Z) : list Z := map (fun i => (a + i)%Z) (range (b - a)).

Variables File D Px Fr : Type.

(** What the loop calls: opening the scan file ([get_filename] and
    [tables.open_file]), the [dataframes] generator, [get_pixels], and
    [process_image] (lines 470-505 for every instrument of the module),
    which assigns no attribute of [self]. *)
Record Backend : Type := mkBackend {
  open_scan : Z -> result File;
  dataframes : File -> result (list D);
  get_pixels : D -> result Px;
  process_image : Z -> D -> Px -> result Fr
}.

Variable be : Backend.

(** [for index in range(...): yield self.process_image(index, ...)]. *)
Fixpoint process_points (dataframe : D) (pixels : Px) (indices : list Z)
    : trace Fr :=
  match indices with
  | [] => mkTrace [] None
  | index :: rest =>
      match process_image be index dataframe pixels with
      | Raise e => mkTrace [] (Some e)
      | Ok fr =>
          let t := process_points dataframe pixels rest in
          mkTrace (fr :: yielded t) (raised t)
      end
  end.

(** [for dataframe in dataframes(scan, self.HPATH): ...] (lines 393-396). *)
Fixpoint process_dataframes (job : Job) (dfs : list D) : trace Fr :=
  match dfs with
  | [] => mkTrace [] None
  | dataframe :: rest =>
      match get_pixels be dataframe with
      | Raise e => mkTrace [] (Some e)
      | Ok pixels =>
          let t := process_points dataframe pixels
                     (range_from (firstpoint job) (lastpoint job + 1)) in
          match raised t with
          | Some _ => t
          | None =>
              let t' := process_dataframes job rest in
              mkTrace (yielded t ++ yielded t') (raised t')
          end
      end
  end.

(** [process_job] (lines 388-401).  Opening the file is outside the
    [try]; the loops are inside it, and the handler extends the message
    of whatever they raise and raises it again.  The parent's
    [process_job] (line 389) and the metadata (lines 391, 401) are left
    out: the parent is called before any point is processed, so it
    cannot store the index of a point that fails later. *)
Definition process_job (self : SIXS) (job : Job) : trace Fr :=
  match open_scan be (scan job) with
  | Raise e => mkTrace [] (Some e)
  | Ok scan_file =>
      let t := match dataframes be scan_file with
               | Raise e => mkTrace [] (Some e)
               | Ok dfs => process_dataframes job dfs
               end in
      match raised t with
      | Some exc =>
          mkTrace (yielded t)
                  (Some (mkExn (exn_kind exc)
                               (addmessage (exn_args exc) (error_note self))))
      | None => t
      end
  end.

End FrameLoop.

(* ================================================================== *)
(** * The mask loader (load_matrix, lines 556-568) *)
(* ================================================================== *)

Section MaskLoader.
Local Open Scope string_scope.

(** What [load_matrix] asks of the operating system and of numpy:
    [os.path.exists], the extension [os.path.splitext(f)[-1]], and the
    two readers, [numpy.loadtxt] and [numpy.load], already cast to
    booleans. *)
Record FileSystem : Type := mkFileSystem {
  path_exists : string -> bool;
  splitext_ext : string -> string;
  loadtxt : string -> result (list (list bool));
  load : string -> result (list (list bool))
}.

Definition newline : string := String (ascii_of_nat 10) EmptyString.

(** [load_matrix(filename)]; [None] is Python's [None]. *)
Definition load_matrix (fs : FileSystem) (filename : option string)
    : result (option (list (list bool))) :=
  match filename with
  | None => Ok None
  | Some filename =>
      if path_exists fs filename then
        let ext := splitext_ext fs filename in
        if String.eqb ext ".txt" then
          m <- loadtxt fs filename ;; Ok (Some m)
        else if String.eqb ext ".npy" then
          m <- load fs filename ;; Ok (Some m)
        else
          Raise (mkExn ValueError
                   ["unknown extension " ++ ext ++ ", unable to load matrix!"
                    ++ newline])
      else
        Raise (mkExn IOError
                 ["filename: " ++ filename ++ " does not exist. Can not load matrix"])
  end.

End MaskLoader.

(* ================================================================== *)
(** * Configuration (SIXS.parse_config, lines 403-423) *)
(* ================================================================== *)

Section Configuration.
Local Open Scope string_scope.

(** The configuration section: a dict from option names to their text. *)
Definition dict : Type := list (string * string).

Fixpoint dict_get (d : dict) (key : string) : option string :=
  match d with
  | [] => None
  | (k, v) :: rest => if String.eqb k key then Some v else dict_get rest key
  end.

Definition dict_remove (d : dict) (key : string) : dict :=
  filter (fun p => negb (String.eqb (fst p) key)) d.

(** [d.pop(key, None)]: the value or [None], and the dict without the key. *)
Definition pop_default (d : dict) (key : string) : option string * dict :=
  (dict_get d key, dict_remove d key).

(** [d.pop(key)]: [KeyError] when the key is missing. *)
Definition pop (d : dict) (key : string) : result (string * dict) :=
  match dict_get d key with
  | Some v => Ok (v, dict_remove d key)
  | None => Raise (mkExn KeyError [key])
  end.

(** [xmask] and [ymask]: [slice(None)] or the selected indices. *)
Inductive selection : Type :=
| slice_None
| indices (l : list Z).

(** [self.config] once [parse_config] is done; [base] is what the
    parent class stored. *)
Record Config (B : Type) : Type := mkConfig {
  base : B;
  xmask : selection;
  ymask : selection;
  nexusfile : string;
  config_pr : option (Z * Z);
  sdd : R;
  centralpixel : Z * Z;
  maskmatrix : option string;
  detrot : option R
}.

(** What [parse_config] calls and the module does not define: the
    parent's [parse_config], [util.parse_multi_range],
    [util.parse_tuple(_, length=2, type=int)] and the builtin [float]. *)
Record ConfigEnv (B : Type) : Type := mkConfigEnv {
  super_parse_config : dict -> result (dict * B);
  parse_multi_range : option string -> result (option (list Z));
  parse_tuple : string -> result (Z * Z);
  float_of_string : string -> result R
}.

Definition is_ValueError (e : exn) : bool :=
  match exn_kind e with
  | ValueError => true
  | _ => false
  end.

(** Lines 418-423: the [detrot] option.  [float] raises [ValueError] on
    a text that is no number, which the handler turns into [None]. *)
Definition parse_detrot (B : Type) (env : ConfigEnv B) (config : dict)
    : result (option R * dict) :=
  let '(detrot, config) := pop_default config "detrot" in
  match detrot with
  | None => Ok (None, config)
  | Some text =>
      match float_of_string env text with
      | Ok x => Ok (Some x, config)
      | Raise e => if is_ValueError e then Ok (None, config) else Raise e
      end
  end.

Definition as_selection (m : option (list Z)) : selection :=
  match m with
  | None => slice_None
  | Some l => indices l
  end.

(** Lines 404-417: everything before the [detrot] option.  The result
    lacks only [detrot]. *)
Definition parse_config_head (B : Type) (env : ConfigEnv B) (config : dict)
    : result (Config B * dict) :=
  sup <- super_parse_config env config ;;
  let '(config, b) := sup in
  let '(xm, config) := pop_default config "xmask" in
  xmask <- parse_multi_range env xm ;;
  let '(ym, config) := pop_default config "ymask" in
  ymask <- parse_multi_range env ym ;;
  nf <- pop config "nexusfile" ;;
  let '(nexusfile, config) := nf in
  let '(pr_text, config) := pop_default config "pr" in
  pr <- match pr_text with
        | None => Ok None
        | Some text =>
            if String.eqb text "" then Ok None
            else (t <- parse_tuple env text ;; Ok (Some t))
        end ;;
  sd <- pop config "sdd" ;;
  let '(sdd_text, config) := sd in
  sdd <- float_of_string env sdd_text ;;
  cp <- pop config "centralpixel" ;;
  let '(cp_text, config) := cp in
  centralpixel <- parse_tuple env cp_text ;;
  let '(maskmatrix, config) := pop_default config "maskmatrix" in
  Ok (mkConfig b (as_selection xmask) (as_selection ymask) nexusfile pr sdd
               centralpixel maskmatrix None, config).

(** [parse_config] (lines 403-423): the configuration and what is left
    of the dict. *)
Definition parse_config (B : Type) (env : ConfigEnv B) (config : dict)
    : result (Config B * dict) :=
  hd <- parse_config_head env config ;;
  let '(c, config) := hd in
  dr <- parse_detrot env config ;;
  let '(detrot, config) := dr in
  Ok (mkConfig (base c) (xmask c) (ymask c) (nexusfile c) (config_pr c) (sdd c)
               (centralpixel c) (maskmatrix c) detrot, config).

(** [numpy.radians], [math.radians]. *)
Definition radians (x : R) : R := (x * PI / 180)%R.

(** The detector rotation of [process_image] (lines 495-499): the chain
    of the detector axes, times the roll about [1, 0, 0] when [detrot]
    is set. *)
Definition detector_rotation (detrot : option R) (d_values : list R)
    (d_axes : list vec) : result mat :=
  P <- reduce dot (zip_with M (map radians d_values) d_axes) ;;
  match detrot with
  | Some angle => Ok (dot P (M (radians angle) (1, 0, 0)%R))
  | None => Ok P
  end.

End Configuration.

(* ================================================================== *)
(** * The rest of the module *)
(* ================================================================== *)

Section MoreArithmetic.
Local Open Scope R_scope.

(** An orthogonal matrix: its transpose is a right inverse. *)
Definition orthogonal (m : mat) : Prop := dot m (transpose m) = identity.

(** A matrix times a scalar, entry by entry. *)
Definition mat_scale (t : R) (m : mat) : mat :=
  let '((m00, m01, m02), (m10, m11, m12), (m20, m21, m22)) := m in
  ((t * m00, t * m01, t * m02),
   (t * m10, t * m11, t * m12),
   (t * m20, t * m21, t * m22)).

(** [QparQperProjection.project] (lines 146-148). *)
Definition QparQperProjection_project (pdataframe : PDataFrame)
    : result (grid * grid) :=
  q <- QxQyQzProjection_project pdataframe ;;
  let '(qx, qy, qz) := q in
  Ok (grid_map sqrt (grid_zip Rplus (grid_zip Rmult qx qx) (grid_zip Rmult qy qy)),
      qz).

End MoreArithmetic.

Section MoreBackend.
Local Open Scope string_scope.

(** [l[k]] for a Python integer [k]: a negative index counts from the
    end, an index outside the list raises IndexError (here [OtherError],
    the class for exceptions the module does not name). *)
Definition getitem {A : Type} (l : list A) (k : Z) : result A :=
  let n := Z.of_nat (List.length l) in
  let k' := if (k <? 0)%Z then (k + n)%Z else k in
  if ((0 <=? k') && (k' <? n))%Z%bool then
    match nth_error l (Z.to_nat k') with
    | Some x => Ok x
    | None => Raise (mkExn OtherError ["IndexError: index out of bounds"])
    end
  else Raise (mkExn OtherError ["IndexError: index out of bounds"]).

(** [a[r, c]] on a two-dimensional array. *)
Definition getitem2 (a : grid) (r c : Z) : result R :=
  row <- getitem a r ;; getitem row c.

(** [FlyScanUHV.get_pixels] (lines 507-517).  [y] and [x] are the first
    two arrays of [detector.calc_cartesian_positions()], of one shape;
    [centralpixel] is (x, y), so it indexes row [centralpixel[1]] and
    column [centralpixel[0]]. *)
Definition get_pixels_of (sdd : R) (centralpixel : Z * Z) (y x : grid)
    : result arr3 :=
  y0 <- getitem2 y (snd centralpixel) (fst centralpixel) ;;
  x0 <- getitem2 x (snd centralpixel) (fst centralpixel) ;;
  let z := grid_map (fun one => one * -1 * sdd)%R (grid_map (fun _ => 1%R) x) in
  Ok (grid_map Ropp z,
      grid_map (fun v => - (v - x0))%R x,
      grid_map (fun v => v - y0)%R y).

(** [realspace.project] (lines 61-63). *)
Definition realspace_project (pdataframe : PDataFrame) : grid * grid :=
  let '(_, p1, p2) := pdf_pixels pdataframe in (p1, p2).

(** [numpy.meshgrid(xs, ys)], Cartesian indexing: two arrays of
    [len(ys)] rows and [len(xs)] columns, the first with [xs] in every
    row, the second with [ys] down every column. *)
Definition meshgrid (xs ys : list Z) : list (list Z) * list (list Z) :=
  (map (fun _ => xs) ys, map (fun y => map (fun _ => y) xs) ys).

(** [Pixels.project] (lines 72-74); [shape[0]] is the number of rows of
    [pixels[0]], [shape[1]] the length of a row. *)
Definition Pixels_project (pdataframe : PDataFrame)
    : list (list Z) * list (list Z) :=
  let '(p0, _, _) := pdf_pixels pdataframe in
  meshgrid (range (Z.of_nat (List.length (hd [] p0))))
           (range (Z.of_nat (List.length p0))).

(** [get_nxclass] (lines 154-167) over the nodes of [walk_nodes], in
    order; [NX_class] gives the attribute of a node, [None] where
    [node._v_attrs['NX_class']] raises KeyError. *)
Definition get_nxclass {N : Type} (walk_nodes : list N)
    (NX_class : N -> option string) (nxclass : string) : option N :=
  find (fun node => match NX_class node with
                    | Some c => String.eqb nxclass c
                    | None => false
                    end) walk_nodes.

(** [str(n)] for an integer. *)
Definition str (n : Z) : string := NilZero.string_of_int (Z.to_int n).

Fixpoint zeros (n : nat) : string :=
  match n with
  | O => ""
  | S n' => String "0" (zeros n')
  end.

(** [s.zfill(width)]: zeros on the left up to [width] characters, after
    the sign when [s] starts with one. *)
Definition zfill (s : string) (width : nat) : string :=
  let fill := zeros (width - String.length s) in
  match s with
  | String c rest =>
      if (Ascii.eqb c "+" || Ascii.eqb c "-")%bool
      then String c (fill ++ rest)
      else fill ++ s
  | EmptyString => fill
  end.

(** [SIXS.get_filename] (lines 433-437).  [format template text] is
    [template.format(scanno=text)]; [path_exists] is [os.path.exists]. *)
Definition get_filename (format : string -> string -> string)
    (path_exists : string -> bool) (nexusfile : string) (scanno : Z)
    : result string :=
  let filename := format nexusfile (zfill (str scanno) 5) in
  if path_exists filename then Ok filename
  else Raise (mkExn ConfigError ["nexus filename does not exist: " ++ filename]).

(** [sep.join(l)]. *)
Fixpoint join (sep : string) (l : list string) : string :=
  match l with
  | [] => ""
  | [x] => x
  | x :: rest => x ++ sep ++ join sep rest
  end.

(** [s.replace(' ', ',')]. *)
Fixpoint replace_spaces (s : string) : string :=
  match s with
  | EmptyString => EmptyString
  | String c rest =>
      String (if Ascii.eqb c " " then "," else c)%char (replace_spaces rest)
  end.

(** [SIXS.get_destination_options] (lines 425-430).  [None] is the
    [False] of an empty command; otherwise the dict, as its [first],
    [last] and [range] entries.  [parse_multi_range] is the function of
    [util], read as a parameter; [min] and [max] raise ValueError on an
    empty sequence. *)
Definition get_destination_options
    (parse_multi_range : string -> result (list Z)) (command : list string)
    : result (option (Z * Z * string)) :=
  match command with
  | [] => Ok None
  | _ =>
      let command := replace_spaces (join "," command) in
      scans <- parse_multi_range command ;;
      match scans with
      | [] => Raise (mkExn ValueError ["min() arg is an empty sequence"])
      | scan0 :: rest =>
          Ok (Some (fold_left Z.min rest scan0, fold_left Z.max rest scan0,
                    join "," (map str scans)))
      end
  end.

(** [f] over a list, stopping at the first exception. *)
Fixpoint map_result {A B : Type} (f : A -> result B) (l : list A)
    : result (list B) :=
  match l with
  | [] => Ok []
  | x :: rest =>
      y <- f x ;; ys <- map_result f rest ;; Ok (y :: ys)
  end.

(** The instrument classes of the module (lines 445, 520, 530). *)
Inductive instrument : Type :=
| FlyScanUHV
| FlyScanUHV2
| SBSMedH.

(** The [HPATH] of each class: the key of a channel and the name of its
    node in the scan file. *)
Definition HPATH (cls : instrument) : list (string * string) :=
  match cls with
  | FlyScanUHV =>
      [("image", "xpad_image"); ("mu", "UHV_MU"); ("omega", "UHV_OMEGA");
       ("delta", "UHV_DELTA"); ("gamma", "UHV_GAMMA")]
  | FlyScanUHV2 =>
      [("image", "xpad_image"); ("mu", "mu"); ("omega", "omega");
       ("delta", "delta"); ("gamma", "gamma")]
  | SBSMedH =>
      [("image", "data_03"); ("pitch", "data_22"); ("mu", "data_18");
       ("gamma", "data_20"); ("delta", "data_19")]
  end.

Section Channels.

(** What a channel holds at a point: an image or an angle. *)
Variable V : Type.

(** A node of the scan file, read at a point index, and the dict
    [h5_nodes] from keys to nodes. *)
Definition h5_node : Type := Z -> result V.
Definition h5_dict : Type := list (string * h5_node).

(** The loop of [dataframes] over [data_path.items()] (lines 285-288);
    [get_child] is [scan_data._f_get_child].  The keys of a dict are
    distinct. *)
Definition build_h5_nodes (get_child : string -> result h5_node)
    (data_path : list (string * string)) : result h5_dict :=
  map_result (fun kv => child <- get_child (snd kv) ;; Ok (fst kv, child))
             data_path.

(** [h5_nodes[key][index]]: KeyError for a key the dict lacks. *)
Definition h5_item (h5_nodes : h5_dict) (key : string) (index : Z) : result V :=
  match find (fun kv => String.eqb (fst kv) key) h5_nodes with
  | Some (_, node) => node index
  | None => Raise (mkExn KeyError [key])
  end.

(** [FlyScanUHV.get_values] (lines 459-468); the two tuples as lists. *)
Definition FlyScanUHV_get_values (index : Z) (h5_nodes : h5_dict)
    : result (V * list V * list V) :=
  image <- h5_item h5_nodes "image" index ;;
  mu <- h5_item h5_nodes "mu" index ;;
  omega <- h5_item h5_nodes "omega" index ;;
  delta <- h5_item h5_nodes "delta" index ;;
  gamma <- h5_item h5_nodes "gamma" index ;;
  Ok (image, [mu; omega], [mu; delta; gamma]).

(** [SBSMedH.get_values] (lines 544-553). *)
Definition SBSMedH_get_values (index : Z) (h5_nodes : h5_dict)
    : result (V * list V * list V) :=
  image <- h5_item h5_nodes "image" index ;;
  pitch <- h5_item h5_nodes "pitch" index ;;
  mu <- h5_item h5_nodes "mu" index ;;
  gamma <- h5_item h5_nodes "gamma" index ;;
  delta <- h5_item h5_nodes "delta" index ;;
  Ok (image, [pitch; mu], [pitch; gamma; delta]).

(** [get_values] as each class has it: [FlyScanUHV2] inherits the one
    of [FlyScanUHV]. *)
Definition get_values (cls : instrument) (index : Z) (h5_nodes : h5_dict)
    : result (V * list V * list V) :=
  match cls with
  | SBSMedH => SBSMedH_get_values index h5_nodes
  | FlyScanUHV | FlyScanUHV2 => FlyScanUHV_get_values index h5_nodes
  end.

End Channels.

(** [rotation_axes(graph, nodes)] (lines 316-324):
    [graph.node[idx]["transformation"].axis], KeyError for a node the
    graph lacks or one without the attribute. *)
Definition rotation_axes (graph : DiGraph) (nodes_ : list string)
    : result (list (list Z)) :=
  map_result
    (fun idx =>
       match find (fun p => String.eqb (fst p) idx) (nodes graph) with
       | Some (_, Some t) => Ok (axis t)
       | Some (_, None) => Raise (mkExn KeyError ["transformation"])
       | None => Raise (mkExn KeyError [idx])
       end) nodes_.

(** [M(theta, u)] on an axis held as a Python list: [u[0]], [u[1]] and
    [u[2]], IndexError (here [OtherError]) on a shorter list. *)
Definition M_of_list (theta : R) (u : list Z) : result mat :=
  match u with
  | u0 :: u1 :: u2 :: _ => Ok (M theta (IZR u0, IZR u1, IZR u2))
  | _ => Raise (mkExn OtherError ["IndexError: list index out of range"])
  end.

(** The rotation of a chain in [process_image] (lines 490-492 and
    495-497): [reduce(numpy.dot, zip_with(M, numpy.radians(values),
    rotation_axes(graph, chain)))]. *)
Definition chain_rotation (graph : DiGraph) (chain : list string)
    (values : list R) : result mat :=
  axes <- rotation_axes graph chain ;;
  ms <- map_result (fun m => m) (zip_with M_of_list (map radians values) axes) ;;
  reduce dot ms.

(** The sample rotation R and the detector rotation P of a frame
    (lines 489-499). *)
Definition frame_rotations (axes : Axes) (detrot : option R)
    (s_values d_values : list R) : result (mat * mat) :=
  R0 <- chain_rotation (graph axes) (sample axes) s_values ;;
  P <- chain_rotation (graph axes) (detector axes) d_values ;;
  let P := match detrot with
           | Some angle => dot P (M (radians angle) (1, 0, 0)%R)
           | None => P
           end in
  Ok (R0, P).

(** An axis list that [M] reads as the unit vector [v]. *)
Definition axis_ok (u : list Z) (v : vec) : Prop :=
  unit_vector v /\ forall theta, M_of_list theta u = Ok (M theta v).

(** The options of the module, in the order [parse_config] pops them. *)
Definition option_names : list string :=
  ["xmask"; "ymask"; "nexusfile"; "pr"; "sdd"; "centralpixel"; "maskmatrix";
   "detrot"].

End MoreBackend.

(* ================================================================== *)
(** * Properties *)
(* ================================================================== *)

Unset Implicit Arguments.

Section JobProperties.
Local Open Scope Z_scope.

Lemma tiles_app first l1 mid l2 next :
  tiles first l1 mid -> tiles mid l2 next -> tiles first (l1 ++ l2) next.
Proof.
  revert first. induction l1 as [|j l1 IH]; simpl; intros first H1 H2.
  - subst. exact H2.
  - destruct H1 as (Hf & Hle & Hw & Hrest). repeat split; auto.
Qed.

Lemma tiles_le first jobs next : tiles first jobs next -> first <= next.
Proof.
  revert first. induction jobs as [|j jobs IH]; simpl; intros first H.
  - lia.
  - destruct H as (Hf & Hle & _ & Hrest). apply IH in Hrest. lia.
Qed.

Lemma tiles_total first jobs next :
  tiles first jobs next -> total_weight jobs = next - first.
Proof.
  revert first. induction jobs as [|j jobs IH]; simpl; intros first H.
  - unfold total_weight. simpl. lia.
  - destruct H as (Hf & Hle & Hw & Hrest). apply IH in Hrest.
    unfold total_weight in *. simpl. lia.
Qed.

Lemma tiles_nth first jobs next i a :
  tiles first jobs next -> nth_error jobs i = Some a ->
  first <= firstpoint a /\ firstpoint a <= lastpoint a /\ lastpoint a < next.
Proof.
  revert first i. induction jobs as [|j jobs IH]; intros first i H Hi.
  - destruct i; discriminate.
  - simpl in H. destruct H as (Hf & Hle & Hw & Hrest).
    destruct i as [|i]; simpl in Hi.
    + injection Hi as <-. apply tiles_le in Hrest. lia.
    + destruct (IH _ _ Hrest Hi) as (? & ? & ?). lia.
Qed.

Lemma tiles_strictly_ordered first jobs next :
  tiles first jobs next -> strictly_ordered jobs.
Proof.
  revert first. induction jobs as [|j0 jobs IH]; intros first H i j a b Hij Ha Hb.
  - destruct i; discriminate.
  - simpl in H. destruct H as (Hf & Hle & Hw & Hrest).
    destruct j as [|j]; [lia|]. simpl in Hb.
    destruct i as [|i]; simpl in Ha.
    + injection Ha as <-. destruct (tiles_nth _ _ _ _ _ Hrest Hb) as (? & ? & ?). lia.
    + apply (IH _ Hrest i j a b); auto. lia.
Qed.

Lemma tiles_contiguous first jobs next :
  tiles first jobs next -> contiguous jobs.
Proof.
  revert first. induction jobs as [|j0 jobs IH]; intros first H i a b Ha Hb.
  - destruct i; discriminate.
  - simpl in H. destruct H as (Hf & Hle & Hw & Hrest).
    destruct i as [|i]; simpl in Ha, Hb.
    + injection Ha as <-. destruct jobs as [|j1 jobs]; [discriminate|].
      simpl in Hb. injection Hb as <-. simpl in Hrest. lia.
    + apply (IH _ Hrest i a b); auto.
Qed.

Lemma tiles_weights first jobs next :
  tiles first jobs next -> Forall weight_is_length jobs.
Proof.
  revert first. induction jobs as [|j jobs IH]; simpl; intros first H.
  - constructor.
  - destruct H as (Hf & Hle & Hw & Hrest). constructor; eauto.
Qed.

Lemma tiles_last first jobs next jn :
  tiles first jobs next ->
  nth_error jobs (List.length jobs - 1) = Some jn -> lastpoint jn + 1 = next.
Proof.
  revert first. induction jobs as [|j jobs IH]; intros first H Hn.
  - discriminate.
  - simpl in H. destruct H as (Hf & Hle & Hw & Hrest).
    destruct jobs as [|j1 jobs].
    + simpl in Hn. injection Hn as <-. simpl in Hrest. exact Hrest.
    + apply (IH _ Hrest). simpl in Hn. simpl.
      rewrite Nat.sub_0_r in *. exact Hn.
Qed.

Lemma tiles_covers first jobs next :
  jobs <> [] -> tiles first jobs next -> covers first (next - first) jobs.
Proof.
  intros Hne H. destruct jobs as [|j0 jobs]; [congruence|].
  destruct (nth_error (j0 :: jobs) (List.length (j0 :: jobs) - 1)) as [jn|] eqn:Hn.
  - exists j0, jn. repeat split; auto.
    + simpl in H. tauto.
    + apply (tiles_last _ _ _ _ H) in Hn. lia.
  - apply nth_error_None in Hn. simpl in Hn. lia.
Qed.

(** The full chunks of [chunk_slicer], turned into jobs, tile a multiple
    of the chunk size. *)
Lemma full_chunks_tile scanno start T a n :
  1 <= T ->
  tiles (start + Z.of_nat a * T)
    (map (fun s => mkJob scanno (start + slice_start s) (start + slice_stop s - 1)
                         (slice_stop s - slice_start s))
       (map (fun i => mkSlice (i * T) ((i + 1) * T)) (map Z.of_nat (seq a n))))
    (start + Z.of_nat (a + n) * T).
Proof.
  intros HT. revert a. induction n as [|n IH]; intros a; simpl.
  - rewrite Nat.add_0_r. reflexivity.
  - repeat split; try nia.
    replace (start + (Z.of_nat a + 1) * T - 1 + 1)
      with (start + Z.of_nat (S a) * T) by lia.
    replace (a + S n)%nat with (S a + n)%nat by lia. apply IH.
Qed.

(** The chunks of the model of [chunk_slicer], as jobs, tile the scan. *)
Lemma chunk_jobs_tile scanno start N T :
  1 <= N -> 1 <= T ->
  tiles start
    (map (fun s => mkJob scanno (start + slice_start s) (start + slice_stop s - 1)
                         (slice_stop s - slice_start s))
       (chunk_slicer N T))
    (start + N).
Proof.
  intros HN HT. unfold chunk_slicer, range.
  assert (Hq : 0 <= (N - 1) / T) by (apply Z.div_pos; lia).
  pose proof (Z.mul_div_le (N - 1) T ltac:(lia)) as Hlo.
  pose proof (Z.mul_succ_div_gt (N - 1) T ltac:(lia)) as Hhi.
  set (q := (N - 1) / T) in *.
  rewrite map_app. apply tiles_app with (mid := start + q * T).
  - pose proof (full_chunks_tile scanno start T 0 (Z.to_nat q) HT) as H.
    simpl in H. rewrite Z2Nat.id in H by lia.
    replace (start + 0) with start in H by lia. exact H.
  - simpl. repeat split; lia.
Qed.

(** The jobs of one scan tile its point range, on either side of the
    threshold test. *)
Lemma generate_jobs_scan_tiles config get_pointcount scanno start N :
  point_range config get_pointcount scanno = (start, N) ->
  1 <= N -> 1 <= target_weight config ->
  tiles start (generate_jobs_scan config get_pointcount scanno) (start + N).
Proof.
  intros Hr HN HT. unfold generate_jobs_scan. rewrite Hr.
  destruct (over_threshold N (target_weight config)).
  - apply chunk_jobs_tile; assumption.
  - simpl. repeat split; lia.
Qed.

Lemma generate_jobs_scan_nonempty config get_pointcount scanno :
  generate_jobs_scan config get_pointcount scanno <> [].
Proof.
  unfold generate_jobs_scan.
  destruct (point_range config get_pointcount scanno) as [start N].
  destruct (over_threshold N (target_weight config)); [|discriminate].
  unfold chunk_slicer. rewrite map_app. simpl.
  intros H. apply app_eq_nil in H. destruct H; discriminate.
Qed.

(** C3: for a scan of N >= 1 points and a target weight T >= 1, the
    jobs of the scan are strictly ordered by point index and do not
    overlap, each begins one point after the one before it ends, they
    begin at the first point of the scan and end at its last, the
    weight of each is the length of its inclusive range
    (lastpoint - firstpoint + 1), and the weights add up to N.  The
    chunks are those of the model of [chunk_slicer]. *)
Theorem generate_jobs_partition config get_pointcount scanno start N :
  point_range config get_pointcount scanno = (start, N) ->
  1 <= N -> 1 <= target_weight config ->
  let jobs := generate_jobs_scan config get_pointcount scanno in
  strictly_ordered jobs /\ contiguous jobs /\ covers start N jobs /\
  Forall weight_is_length jobs /\ total_weight jobs = N.
Proof.
  intros Hr HN HT jobs.
  pose proof (generate_jobs_scan_tiles _ _ _ _ _ Hr HN HT) as Ht. fold jobs in Ht.
  split; [eapply tiles_strictly_ordered; eauto|].
  split; [eapply tiles_contiguous; eauto|].
  split.
  - replace N with (start + N - start) by lia.
    apply tiles_covers; auto. apply generate_jobs_scan_nonempty.
  - split; [eapply tiles_weights; eauto|].
    rewrite (tiles_total _ _ _ Ht). lia.
Qed.

Lemma generate_jobs_partition_witness :
  let jobs := generate_jobs_scan (mkJobConfig None 30) (fun _ => 100) 12 in
  strictly_ordered jobs /\ contiguous jobs /\ covers 0 100 jobs /\
  Forall weight_is_length jobs /\ total_weight jobs = 100.
Proof.
  apply (generate_jobs_partition (mkJobConfig None 30) (fun _ => 100) 12 0 100);
    [reflexivity | lia | simpl; lia].
Defined.

(** Below the threshold test the scan is one job. *)
Lemma generate_jobs_scan_single config get_pointcount scanno start N :
  point_range config get_pointcount scanno = (start, N) ->
  over_threshold N (target_weight config) = false ->
  generate_jobs_scan config get_pointcount scanno
  = [mkJob scanno start (start + N - 1) N].
Proof.
  intros Hr Hth. unfold generate_jobs_scan. rewrite Hr, Hth. reflexivity.
Qed.

(** Above it, the scan is a run of jobs of [T] points and a last job of
    the remaining [r] points, [1 <= r <= T]. *)
Lemma generate_jobs_scan_chunks config get_pointcount scanno start N :
  point_range config get_pointcount scanno = (start, N) ->
  1 <= N -> 1 <= target_weight config ->
  over_threshold N (target_weight config) = true ->
  let T := target_weight config in
  let q := (N - 1) / T in
  let r := N - q * T in
  generate_jobs_scan config get_pointcount scanno
  = map (fun i => mkJob scanno (start + i * T) (start + i * T + T - 1) T) (range q)
    ++ [mkJob scanno (start + q * T) (start + N - 1) r]
  /\ 1 <= r <= T.
Proof.
  intros Hr HN HT Hth T q r. unfold generate_jobs_scan. rewrite Hr, Hth.
  unfold chunk_slicer. fold T. fold q. split.
  - rewrite map_app, map_map. simpl. f_equal.
    apply map_ext. intros i. f_equal; lia.
  - pose proof (Z.mul_div_le (N - 1) T ltac:(lia)).
    pose proof (Z.mul_succ_div_gt (N - 1) T ltac:(lia)).
    unfold r, q. lia.
Qed.

(** The worked cases of the spec (8): 100 points at weight 30, 40 at 30
    and 43 at 30. *)
Example generate_jobs_100_30 :
  generate_jobs_scan (mkJobConfig None 30) (fun _ => 100) 12
  = [mkJob 12 0 29 30; mkJob 12 30 59 30; mkJob 12 60 89 30; mkJob 12 90 99 10].
Proof. vm_compute. reflexivity. Qed.

Example generate_jobs_40_30 :
  generate_jobs_scan (mkJobConfig None 30) (fun _ => 40) 12 = [mkJob 12 0 39 40].
Proof. vm_compute. reflexivity. Qed.

Example generate_jobs_43_30 :
  map weight (generate_jobs_scan (mkJobConfig None 30) (fun _ => 43) 12) = [30; 13].
Proof. vm_compute. reflexivity. Qed.

(** C2: "if N <= 1.4 T the generator emits exactly one job".  At 63
    points and a target weight of 45, 63 <= 1.4 * 45 holds (5 * 63 <=
    7 * 45), yet the binary64 product 45 * 1.4 is 62.99999999999999, the
    test [63 > 45 * 1.4] succeeds, and the scan is split in two jobs. *)
Theorem generate_jobs_63_45_split :
  5 * 63 <= 7 * 45 /\
  over_threshold 63 45 = true /\
  generate_jobs_scan (mkJobConfig None 45) (fun _ => 63) 12
  = [mkJob 12 0 44 45; mkJob 12 45 62 18].
Proof.
  split; [lia|]. split; vm_compute; reflexivity.
Qed.

End JobProperties.

Section RotationProperties.
Local Open Scope R_scope.

Lemma M_0 u : M 0 u = identity.
Proof.
  destruct u as [[u0 u1] u2]. unfold M, identity.
  rewrite cos_0, sin_0. repeat f_equal; ring.
Qed.

(** Entry (i, j) of [M . M^T] is [d + (d - ui uj) e + (d s^2 + ui uj
    (1 - c)^2) n], where [d] is the entry of the identity, [e] is
    [s^2 + c^2 - 1] and [n] is [|u|^2 - 1]. *)
Ltac entry d ui uj :=
  match goal with
  | He : ?s * ?s + ?c * ?c - 1 = 0, Hd : ?n - 1 = 0 |- ?L = ?R =>
      replace L with (R + (d - ui * uj) * (s * s + c * c - 1)
                        + (d * (s * s) + ui * uj * ((1 - c) * (1 - c))) * (n - 1))
        by ring;
      rewrite He, Hd; ring
  end.

Lemma M_orthogonal theta u :
  unit_vector u -> dot (M theta u) (transpose (M theta u)) = identity.
Proof.
  destruct u as [[u0 u1] u2]. unfold unit_vector. intros Hu.
  pose proof (sin2_cos2 theta) as Hsc. unfold Rsqr in Hsc.
  unfold M, transpose, dot, identity.
  set (c := cos theta) in *. set (s := sin theta) in *.
  assert (He : s * s + c * c - 1 = 0) by lra.
  assert (Hd : u0 ^ 2 + u1 ^ 2 + u2 ^ 2 - 1 = 0) by lra.
  repeat f_equal.
  - entry 1 u0 u0. - entry 0 u0 u1. - entry 0 u0 u2.
  - entry 0 u1 u0. - entry 1 u1 u1. - entry 0 u1 u2.
  - entry 0 u2 u0. - entry 0 u2 u1. - entry 1 u2 u2.
Qed.

End RotationProperties.

(** C7: for a unit axis u, M(0, u) is the identity, and M(theta, u) is
    orthogonal for every angle theta: M(theta, u) . M(theta, u)^T = I
    (over the reals). *)
Theorem M_identity_and_orthogonal (theta : R) (u : vec) :
  unit_vector u ->
  M 0 u = identity /\ dot (M theta u) (transpose (M theta u)) = identity.
Proof.
  intros Hu. split.
  - apply M_0.
  - apply M_orthogonal. exact Hu.
Qed.

Lemma M_identity_and_orthogonal_witness :
  unit_vector (0, 0, 1)%R /\
  M 0 (0, 0, 1)%R = identity /\
  dot (M (PI / 2) (0, 0, 1)%R) (transpose (M (PI / 2) (0, 0, 1)%R)) = identity.
Proof.
  assert (H : unit_vector (0, 0, 1)%R) by (simpl; lra).
  split; [exact H | apply (M_identity_and_orthogonal (PI / 2) (0, 0, 1)%R H)].
Defined.

Section ArrayProperties.
Local Open Scope R_scope.

Lemma length_zip_with {A B C : Type} (f : A -> B -> C) xs ys :
  List.length (zip_with f xs ys) = Nat.min (List.length xs) (List.length ys).
Proof.
  revert ys. induction xs as [|x xs IH]; intros [|y ys]; simpl; auto.
Qed.

Lemma nth_zip_with {A B C : Type} (f : A -> B -> C) xs ys i da db dc :
  (i < List.length xs)%nat -> (i < List.length ys)%nat ->
  nth i (zip_with f xs ys) dc = f (nth i xs da) (nth i ys db).
Proof.
  revert ys i. induction xs as [|x xs IH]; intros [|y ys] [|i]; simpl;
    intros H1 H2; try lia; auto.
  apply IH; lia.
Qed.

Lemma has_shape_row H W g i :
  has_shape H W g -> (i < H)%nat -> List.length (nth i g []) = W.
Proof.
  intros [Hl Hr] Hi. rewrite Forall_forall in Hr. apply Hr.
  apply nth_In. lia.
Qed.

Lemma has_shape_zip H W f g1 g2 :
  has_shape H W g1 -> has_shape H W g2 -> has_shape H W (grid_zip f g1 g2).
Proof.
  intros [Hl1 Hr1] [Hl2 Hr2]. unfold grid_zip. split.
  - rewrite length_zip_with. lia.
  - clear Hl1 Hl2. revert g2 Hr2.
    induction Hr1 as [|r1 g1 Hr Hg1 IH]; intros [|r2 g2] Hr2; simpl;
      try constructor.
    + rewrite length_zip_with. inversion Hr2; subst. lia.
    + apply IH. inversion Hr2; assumption.
Qed.

Lemma has_shape_map H W f g : has_shape H W g -> has_shape H W (grid_map f g).
Proof.
  intros [Hl Hr]. unfold grid_map. split.
  - rewrite length_map. exact Hl.
  - rewrite Forall_map. eapply Forall_impl; [|exact Hr].
    intros row Hrow. simpl. rewrite length_map. exact Hrow.
Qed.

Lemma grid_at_zip H W f g1 g2 i j :
  has_shape H W g1 -> has_shape H W g2 -> (i < H)%nat -> (j < W)%nat ->
  grid_at (grid_zip f g1 g2) i j = f (grid_at g1 i j) (grid_at g2 i j).
Proof.
  intros H1 H2 Hi Hj. unfold grid_at, grid_zip.
  rewrite (nth_zip_with (zip_with f) g1 g2 i [] [] []);
    [|destruct H1; lia|destruct H2; lia].
  apply nth_zip_with.
  - rewrite (has_shape_row H W g1 i H1 Hi). exact Hj.
  - rewrite (has_shape_row H W g2 i H2 Hi). exact Hj.
Qed.

Lemma grid_at_map H W f g i j :
  has_shape H W g -> (i < H)%nat -> (j < W)%nat ->
  grid_at (grid_map f g) i j = f (grid_at g i j).
Proof.
  intros H1 Hi Hj. unfold grid_at, grid_map.
  rewrite (nth_indep (map (map f) g) [] (map f [])).
  - rewrite map_nth. rewrite (nth_indep _ 0 (f 0)).
    + apply map_nth.
    + rewrite length_map, (has_shape_row H W g i H1 Hi). exact Hj.
  - rewrite length_map. destruct H1; lia.
Qed.

Create HintDb shape.
#[local] Hint Resolve has_shape_zip has_shape_map : shape.

Lemma norm_axis0_shape H W a :
  arr3_shape H W a -> has_shape H W (norm_axis0 a).
Proof.
  destruct a as [[a0 a1] a2]. intros (H0 & H1 & H2).
  unfold norm_axis0. auto 10 with shape.
Qed.

Lemma normalized_l2_shape H W a :
  arr3_shape H W a -> has_shape H W (normalized_l2 a).
Proof.
  intros Ha. unfold normalized_l2. apply has_shape_map.
  apply norm_axis0_shape. exact Ha.
Qed.

Lemma normalized_shape H W a :
  arr3_shape H W a -> arr3_shape H W (normalized a).
Proof.
  intros Ha. pose proof (normalized_l2_shape H W a Ha) as Hl.
  unfold normalized. destruct a as [[a0 a1] a2]. destruct Ha as (H0 & H1 & H2).
  simpl. auto with shape.
Qed.

(** The norm at pixel (i, j) is the length of the vector at (i, j). *)
Lemma norm_axis0_at H W a i j :
  arr3_shape H W a -> (i < H)%nat -> (j < W)%nat ->
  grid_at (norm_axis0 a) i j
  = let '(x, y, z) := pixel_at a i j in sqrt (x * x + y * y + z * z).
Proof.
  destruct a as [[a0 a1] a2]. intros (H0 & H1 & H2) Hi Hj.
  unfold norm_axis0, pixel_at.
  rewrite (grid_at_map H W); auto 10 with shape.
  repeat rewrite (grid_at_zip H W); auto 10 with shape.
Qed.

(** [normalized] is, pixel by pixel, the direction of the spec. *)
Lemma normalized_at H W a i j :
  arr3_shape H W a -> (i < H)%nat -> (j < W)%nat ->
  pixel_at (normalized a) i j = direction (pixel_at a i j).
Proof.
  intros Ha Hi Hj.
  pose proof (normalized_l2_shape H W a Ha) as Hl.
  assert (Hn : grid_at (normalized_l2 a) i j
               = let n := grid_at (norm_axis0 a) i j in
                 if Req_dec_T n 0 then 1 else n).
  { unfold normalized_l2.
    rewrite (grid_at_map H W); auto using norm_axis0_shape. }
  rewrite (norm_axis0_at H W a i j Ha Hi Hj) in Hn.
  unfold normalized. destruct a as [[a0 a1] a2]. destruct Ha as (H0 & H1 & H2).
  unfold pixel_at in *.
  repeat rewrite (grid_at_zip H W); auto.
  rewrite Hn. unfold direction. reflexivity.
Qed.


Lemma sum_squares_0 x y z : sqrt (x * x + y * y + z * z) = 0 -> x = 0 /\ y = 0 /\ z = 0.
Proof.
  intros Hs. apply sqrt_eq_0 in Hs; [|nra].
  repeat split; nra.
Qed.



Lemma tensordot_shape H W m a :
  arr3_shape H W a -> arr3_shape H W (tensordot m a).
Proof.
  destruct a as [[a0 a1] a2], m as [[[[m00 m01] m02] [[m10 m11] m12]] [[m20 m21] m22]].
  intros (H0 & H1 & H2). simpl. auto 10 with shape.
Qed.

Lemma tensordot_at H W m a i j :
  arr3_shape H W a -> (i < H)%nat -> (j < W)%nat ->
  pixel_at (tensordot m a) i j = dot_vec m (pixel_at a i j).
Proof.
  destruct a as [[a0 a1] a2], m as [[[[m00 m01] m02] [[m10 m11] m12]] [[m20 m21] m22]].
  intros (H0 & H1 & H2) Hi Hj. unfold tensordot, pixel_at, dot_vec.
  repeat rewrite (grid_at_zip H W); auto 10 with shape.
  repeat rewrite (grid_at_map H W); auto.
Qed.

Lemma sub_broadcast_shape H W a v :
  arr3_shape H W a -> arr3_shape H W (sub_broadcast a v).
Proof.
  destruct a as [[a0 a1] a2], v as [[v0 v1] v2].
  intros (H0 & H1 & H2). simpl. auto with shape.
Qed.

Lemma sub_broadcast_at H W a v i j :
  arr3_shape H W a -> (i < H)%nat -> (j < W)%nat ->
  pixel_at (sub_broadcast a v) i j = vec_sub (pixel_at a i j) v.
Proof.
  destruct a as [[a0 a1] a2], v as [[v0 v1] v2].
  intros (H0 & H1 & H2) Hi Hj. unfold sub_broadcast, pixel_at, vec_sub.
  repeat rewrite (grid_at_map H W); auto.
Qed.

Lemma scale_shape H W a k :
  arr3_shape H W a -> arr3_shape H W (scale a k).
Proof.
  destruct a as [[a0 a1] a2]. intros (H0 & H1 & H2). simpl. auto with shape.
Qed.

Lemma scale_at H W a k i j :
  arr3_shape H W a -> (i < H)%nat -> (j < W)%nat ->
  pixel_at (scale a k) i j = vec_scale (pixel_at a i j) k.
Proof.
  destruct a as [[a0 a1] a2].
  intros (H0 & H1 & H2) Hi Hj. unfold scale, pixel_at, vec_scale.
  repeat rewrite (grid_at_map H W); auto.
Qed.

End ArrayProperties.

Section ProjectionProperties.
Local Open Scope R_scope.

(** Splits an equation between tuples into the equations of the entries. *)
Ltac tuple_eq := repeat match goal with |- (_, _) = (_, _) => apply f_equal2 end.

Lemma dot_identity_l m : dot identity m = m.
Proof.
  destruct m as [[[[m00 m01] m02] [[m10 m11] m12]] [[m20 m21] m22]].
  cbv beta iota delta [dot identity]. tuple_eq; ring.
Qed.

Lemma dot_identity_r m : dot m identity = m.
Proof.
  destruct m as [[[[m00 m01] m02] [[m10 m11] m12]] [[m20 m21] m22]].
  cbv beta iota delta [dot identity]. tuple_eq; ring.
Qed.

(** [inv] on a matrix whose determinant is not 0. *)
Lemma inv_Ok a b :
  det a <> 0 -> dot a b = identity -> inv a = Ok b.
Proof.
  destruct a as [[[[a00 a01] a02] [[a10 a11] a12]] [[a20 a21] a22]].
  destruct b as [[[[b00 b01] b02] [[b10 b11] b12]] [[b20 b21] b22]].
  intros Hd Hab. unfold inv.
  destruct (Req_dec_T _ 0) as [Hz|_]; [contradiction|].
  cbv beta iota delta [dot identity] in Hab. cbv beta iota delta [det] in *.
  injection Hab as E00 E01 E02 E10 E11 E12 E20 E21 E22.
  set (d := a00 * (a11 * a22 - a12 * a21) - a01 * (a10 * a22 - a12 * a20)
            + a02 * (a10 * a21 - a11 * a20)) in *.
  assert (Hcol : forall x y z p q r,
             a00 * x + a01 * y + a02 * z = p ->
             a10 * x + a11 * y + a12 * z = q ->
             a20 * x + a21 * y + a22 * z = r ->
             x = ((a11 * a22 - a12 * a21) * p + (a02 * a21 - a01 * a22) * q
                  + (a01 * a12 - a02 * a11) * r) / d /\
             y = ((a12 * a20 - a10 * a22) * p + (a00 * a22 - a02 * a20) * q
                  + (a02 * a10 - a00 * a12) * r) / d /\
             z = ((a10 * a21 - a11 * a20) * p + (a01 * a20 - a00 * a21) * q
                  + (a00 * a11 - a01 * a10) * r) / d).
  { intros x y z p q r <- <- <-. unfold d. repeat split; field; exact Hd. }
  destruct (Hcol _ _ _ _ _ _ E00 E10 E20) as (-> & -> & ->).
  destruct (Hcol _ _ _ _ _ _ E01 E11 E21) as (-> & -> & ->).
  destruct (Hcol _ _ _ _ _ _ E02 E12 E22) as (-> & -> & ->).
  apply (f_equal (@Ok _)). tuple_eq; field; exact Hd.
Qed.

Lemma inv_identity : inv identity = Ok identity.
Proof.
  apply inv_Ok.
  - cbv beta iota delta [det identity]. lra.
  - apply dot_identity_l.
Qed.

Lemma direction_unit x y z :
  x * x + y * y + z * z = 1 -> direction (x, y, z) = (x, y, z).
Proof.
  intros H. unfold direction. rewrite H, sqrt_1.
  destruct (Req_dec_T 1 0); [lra|]. tuple_eq; field.
Qed.

(** [HKLProjection.project] raises what [inv] raises. *)
Lemma HKLProjection_project_singular pdf e :
  inv (dot (pdf_R pdf) (pdf_ub pdf)) = Raise e ->
  HKLProjection_project pdf = Raise e.
Proof.
  destruct pdf as [pixels k UB R0 P]. simpl. intros ->. reflexivity.
Qed.

(** The output of [HKLProjection.project], pixel by pixel. *)
Lemma HKLProjection_project_at pdf H W i j RUB_1 :
  arr3_shape H W (pdf_pixels pdf) -> (i < H)%nat -> (j < W)%nat ->
  inv (dot (pdf_R pdf) (pdf_ub pdf)) = Ok RUB_1 ->
  exists hkl,
    HKLProjection_project pdf = Ok hkl /\ arr3_shape H W hkl /\
    pixel_at hkl i j
    = hkl_of_pixel RUB_1 (pdf_P pdf) (pdf_k pdf) (pixel_at (pdf_pixels pdf) i j).
Proof.
  destruct pdf as [pixels k UB R0 P]. simpl. intros Hs Hi Hj Hinv.
  rewrite Hinv. simpl.
  set (hkl := scale (sub_broadcast (tensordot (dot RUB_1 P) (normalized pixels))
                                   (dot_vec RUB_1 (1, 0, 0))) k).
  assert (Hshape : arr3_shape H W hkl).
  { unfold hkl. apply scale_shape, sub_broadcast_shape, tensordot_shape,
      normalized_shape. exact Hs. }
  exists hkl. split; [|split; [exact Hshape|]].
  - destruct hkl as [[h k'] l]. reflexivity.
  - unfold hkl, hkl_of_pixel.
    rewrite (scale_at H W), (sub_broadcast_at H W), (tensordot_at H W),
      (normalized_at H W); auto using normalized_shape, tensordot_shape,
      sub_broadcast_shape.
Qed.

(** C1, as the code has it: the HKL projection computes inverse(R.UB)
    (and raises as the inversion does when R.UB is singular); the HKL of
    every pixel is then k times the difference of inverse(R.UB).P
    applied to the normalized position of the pixel and inverse(R.UB)
    applied to the incident direction (1,0,0).  The detector rotation P
    multiplies the inverse before it meets the outgoing directions. *)
Theorem HKLProjection_project_transform (pdf : PDataFrame) (H W i j : nat) :
  arr3_shape H W (pdf_pixels pdf) -> (i < H)%nat -> (j < W)%nat ->
  match inv (dot (pdf_R pdf) (pdf_ub pdf)) with
  | Raise e => HKLProjection_project pdf = Raise e
  | Ok RUB_1 =>
      exists hkl,
        HKLProjection_project pdf = Ok hkl /\ arr3_shape H W hkl /\
        pixel_at hkl i j
        = vec_scale (vec_sub (dot_vec (dot RUB_1 (pdf_P pdf))
                                      (direction (pixel_at (pdf_pixels pdf) i j)))
                             (dot_vec RUB_1 (1, 0, 0)))
                    (pdf_k pdf)
  end.
Proof.
  intros Hs Hi Hj.
  destruct (inv (dot (pdf_R pdf) (pdf_ub pdf))) as [RUB_1|e] eqn:Hinv.
  - exact (HKLProjection_project_at pdf H W i j RUB_1 Hs Hi Hj Hinv).
  - exact (HKLProjection_project_singular pdf e Hinv).
Qed.

(** A frame of one pixel, on the beam axis. *)
Lemma one_pixel_shape :
  arr3_shape 1 1 ([[1]], [[0]], [[0]]).
Proof. simpl. unfold has_shape. simpl. repeat split; repeat constructor. Qed.

Lemma HKLProjection_project_transform_witness :
  let pdf := mkPDataFrame ([[1]], [[0]], [[0]]) 1 identity identity
               ((0, -1, 0), (1, 0, 0), (0, 0, 1)) in
  match inv (dot (pdf_R pdf) (pdf_ub pdf)) with
  | Raise e => HKLProjection_project pdf = Raise e
  | Ok RUB_1 =>
      exists hkl,
        HKLProjection_project pdf = Ok hkl /\ arr3_shape 1 1 hkl /\
        pixel_at hkl 0 0
        = vec_scale (vec_sub (dot_vec (dot RUB_1 (pdf_P pdf))
                                      (direction (pixel_at (pdf_pixels pdf) 0 0)))
                             (dot_vec RUB_1 (1, 0, 0)))
                    (pdf_k pdf)
  end.
Proof.
  intros pdf.
  apply (HKLProjection_project_transform pdf 1 1 0 0);
    [exact one_pixel_shape | lia | lia].
Defined.

(** C1, as the claim has it, fails: with the detector a quarter turn
    about z and R = UB = I, k = 1, the pixel (1,0,0) on the beam axis
    comes out as (-1, 1, 0), where the inverse applied to the
    normalized pixel itself gives (0, 0, 0). *)
Lemma HKLProjection_project_applies_P :
  let pdf := mkPDataFrame ([[1]], [[0]], [[0]]) 1 identity identity
               ((0, -1, 0), (1, 0, 0), (0, 0, 1)) in
  inv (dot (pdf_R pdf) (pdf_ub pdf)) = Ok identity /\
  (exists hkl, HKLProjection_project pdf = Ok hkl /\
               pixel_at hkl 0 0 = (-1, 1, 0)) /\
  hkl_of_pixel_spec identity (pdf_k pdf) (pixel_at (pdf_pixels pdf) 0 0)
  = (0, 0, 0) /\
  (-1, 1, 0) <> (0, 0, 0).
Proof.
  intros pdf.
  assert (Hinv : inv (dot (pdf_R pdf) (pdf_ub pdf)) = Ok identity).
  { change (inv (dot identity identity) = Ok identity).
    rewrite dot_identity_l. exact inv_identity. }
  assert (Hdir : direction (1, 0, 0) = (1, 0, 0)) by (apply direction_unit; ring).
  split; [exact Hinv|]. split; [|split].
  - destruct (HKLProjection_project_at pdf 1 1 0 0 identity
                one_pixel_shape ltac:(lia) ltac:(lia) Hinv)
      as (hkl & Hp & _ & Hat).
    exists hkl. split; [exact Hp|]. rewrite Hat.
    replace (pixel_at (pdf_pixels pdf) 0 0) with (1, 0, 0) by reflexivity.
    unfold hkl_of_pixel. rewrite Hdir.
    cbv beta iota delta [pdf pdf_P pdf_k dot dot_vec vec_sub vec_scale identity].
    tuple_eq; ring.
  - replace (pixel_at (pdf_pixels pdf) 0 0) with (1, 0, 0) by reflexivity.
    unfold hkl_of_pixel_spec. rewrite Hdir.
    cbv beta iota delta [pdf pdf_k dot_vec vec_sub vec_scale identity].
    tuple_eq; ring.
  - intros Heq. injection Heq. intros. lra.
Qed.

Lemma PI_cube_nonzero : 8 * (PI * PI * PI) <> 0.
Proof.
  pose proof PI_RGT_0 as Hpi.
  assert (0 < PI * PI) by (apply Rmult_lt_0_compat; exact Hpi).
  assert (0 < PI * PI * PI) by (apply Rmult_lt_0_compat; [assumption | exact Hpi]).
  lra.
Qed.

Lemma inv_diag_2pi :
  inv (dot identity diag_2pi)
  = Ok ((1 / (2 * PI), 0, 0), (0, 1 / (2 * PI), 0), (0, 0, 1 / (2 * PI))).
Proof.
  pose proof PI_neq0 as Hpi. rewrite dot_identity_l. apply inv_Ok.
  - replace (det diag_2pi) with (8 * (PI * PI * PI))
      by (cbv beta iota delta [det diag_2pi]; ring).
    apply PI_cube_nonzero.
  - cbv beta iota delta [dot diag_2pi identity]. tuple_eq; field; exact Hpi.
Qed.

Lemma inv_UB_first :
  inv (dot identity UB_first)
  = Ok ((1 / (2 * PI), 0, 0), (0, 0, - (1 / (2 * PI))), (0, 1 / (2 * PI), 0)).
Proof.
  pose proof PI_neq0 as Hpi. rewrite dot_identity_l. apply inv_Ok.
  - replace (det UB_first) with (8 * (PI * PI * PI))
      by (cbv beta iota delta [det UB_first]; ring).
    apply PI_cube_nonzero.
  - cbv beta iota delta [dot UB_first identity]. tuple_eq; field; exact Hpi.
Qed.

(** One pixel at (0,1,0), R = P = I and k = 2 pi: the input that tells
    the two assignments to [UB] apart. *)
Lemma first_UB_would_differ :
  let pdf ub := mkPDataFrame ([[0]], [[1]], [[0]]) (2 * PI) ub identity identity in
  exists q h,
    QxQyQzProjection_project (pdf identity) = Ok q /\
    HKLProjection_project (pdf UB_first) = Ok h /\
    pixel_at q 0 0 = (-1, 1, 0) /\ pixel_at h 0 0 = (-1, 0, 1).
Proof.
  intros pdf. pose proof PI_neq0 as Hpi.
  assert (Hs : arr3_shape 1 1 ([[0]], [[1]], [[0]])).
  { simpl. unfold has_shape. simpl. repeat split; repeat constructor. }
  assert (Hdir : direction (0, 1, 0) = (0, 1, 0)) by (apply direction_unit; ring).
  destruct (HKLProjection_project_at (pdf diag_2pi) 1 1 0 0 _ Hs
              ltac:(lia) ltac:(lia) inv_diag_2pi) as (q & Hq & _ & Hqat).
  destruct (HKLProjection_project_at (pdf UB_first) 1 1 0 0 _ Hs
              ltac:(lia) ltac:(lia) inv_UB_first) as (h & Hh & _ & Hhat).
  exists q, h. split; [exact Hq|]. split; [exact Hh|]. split.
  - rewrite Hqat.
    replace (pixel_at (pdf_pixels (pdf diag_2pi)) 0 0) with (0, 1, 0) by reflexivity.
    unfold hkl_of_pixel. rewrite Hdir.
    cbv beta iota delta [pdf pdf_P pdf_k dot dot_vec vec_sub vec_scale identity].
    tuple_eq; field; exact Hpi.
  - rewrite Hhat.
    replace (pixel_at (pdf_pixels (pdf UB_first)) 0 0) with (0, 1, 0) by reflexivity.
    unfold hkl_of_pixel. rewrite Hdir.
    cbv beta iota delta [pdf pdf_P pdf_k dot dot_vec vec_sub vec_scale identity].
    tuple_eq; field; exact Hpi.
Qed.

(** C4: the Qx/Qy/Qz projection is the HKL projection of the same input
    with UB replaced by the diagonal matrix of 2 pi; the UB of the input
    is ignored; and the first matrix assigned to UB has no effect: there
    is an input on which the HKL transform with it gives another
    result. *)
Theorem QxQyQzProjection_is_HKL_at_2pi (pdf : PDataFrame) :
  QxQyQzProjection_project pdf
  = HKLProjection_project
      (mkPDataFrame (pdf_pixels pdf) (pdf_k pdf) diag_2pi (pdf_R pdf) (pdf_P pdf))
  /\ (forall ub : mat,
        QxQyQzProjection_project
          (mkPDataFrame (pdf_pixels pdf) (pdf_k pdf) ub (pdf_R pdf) (pdf_P pdf))
        = QxQyQzProjection_project pdf)
  /\ (exists pdf0 : PDataFrame,
        QxQyQzProjection_project pdf0
        <> HKLProjection_project
             (mkPDataFrame (pdf_pixels pdf0) (pdf_k pdf0) UB_first
                           (pdf_R pdf0) (pdf_P pdf0))).
Proof.
  split; [|split].
  - destruct pdf as [pixels k UB R0 P]. reflexivity.
  - intros ub. destruct pdf as [pixels k UB R0 P]. reflexivity.
  - destruct first_UB_would_differ as (q & h & Hq & Hh & Hqat & Hhat).
    exists (mkPDataFrame ([[0]], [[1]], [[0]]) (2 * PI) identity identity identity).
    cbv beta iota delta [pdf_pixels pdf_k pdf_R pdf_P].
    cbv beta zeta in Hq, Hh. rewrite Hq, Hh.
    intros Heq. injection Heq as ->.
    rewrite Hqat in Hhat. injection Hhat. intros. lra.
Qed.

End ProjectionProperties.

Section KinematicsProperties.
Local Open Scope string_scope.

Lemma get_axes_ZAXIS :
  exists g, get_axes ZAXIS = Ok (mkAxes ["mu"; "omega"] ["mu"; "delta"; "gamma"] g).
Proof. eexists. vm_compute. reflexivity. Qed.

Lemma get_axes_SOLEIL_SIXS_MED1_2 :
  exists g, get_axes SOLEIL_SIXS_MED1_2
            = Ok (mkAxes ["pitch"; "mu"] ["pitch"; "gamma"; "delta"] g).
Proof. eexists. vm_compute. reflexivity. Qed.

Lemma get_axes_unsupported name :
  name <> ZAXIS -> name <> SOLEIL_SIXS_MED1_2 ->
  get_axes name
  = Raise (mkExn NotImplementedError
             ["not yet supported diffractometer type:" ++ name]).
Proof.
  intros H1 H2. unfold get_axes.
  destruct (String.eqb_spec name ZAXIS) as [E|_]; [contradiction|].
  destruct (String.eqb_spec name SOLEIL_SIXS_MED1_2) as [E|_]; [contradiction|].
  reflexivity.
Qed.

(** C6: a name that is neither ZAXIS nor SOLEIL SIXS MED1+2 makes
    [get_axes] raise (NotImplementedError, the spec's
    UnsupportedGeometryError); each of the two names gives the sample
    and detector chains and raises nothing. *)
Theorem get_axes_names (name : string) :
  name <> ZAXIS -> name <> SOLEIL_SIXS_MED1_2 ->
  (exists msg, get_axes name = Raise (mkExn NotImplementedError [msg])) /\
  (exists g, get_axes ZAXIS
             = Ok (mkAxes ["mu"; "omega"] ["mu"; "delta"; "gamma"] g)) /\
  (exists g, get_axes SOLEIL_SIXS_MED1_2
             = Ok (mkAxes ["pitch"; "mu"] ["pitch"; "gamma"; "delta"] g)).
Proof.
  intros H1 H2. split; [|split].
  - eexists. apply get_axes_unsupported; assumption.
  - exact get_axes_ZAXIS.
  - exact get_axes_SOLEIL_SIXS_MED1_2.
Qed.

Lemma get_axes_names_witness :
  (exists msg, get_axes "KAPPA6C" = Raise (mkExn NotImplementedError [msg])) /\
  (exists g, get_axes ZAXIS
             = Ok (mkAxes ["mu"; "omega"] ["mu"; "delta"; "gamma"] g)) /\
  (exists g, get_axes SOLEIL_SIXS_MED1_2
             = Ok (mkAxes ["pitch"; "mu"] ["pitch"; "gamma"; "delta"] g)).
Proof.
  apply (get_axes_names "KAPPA6C"); unfold ZAXIS, SOLEIL_SIXS_MED1_2; discriminate.
Defined.

End KinematicsProperties.

Section MaskLoaderProperties.
Local Open Scope string_scope.

(** C9: [load_matrix(None)] is [None] and raises nothing; a file that
    exists with an extension other than .txt and .npy raises ValueError
    (the spec's UnsupportedFormatError); a file that does not exist
    raises IOError (the spec's NotFoundError). *)
Theorem load_matrix_errors (fs : FileSystem) (present missing : string) :
  path_exists fs present = true ->
  splitext_ext fs present <> ".txt" -> splitext_ext fs present <> ".npy" ->
  path_exists fs missing = false ->
  load_matrix fs None = Ok None /\
  load_matrix fs (Some present)
  = Raise (mkExn ValueError
             ["unknown extension " ++ splitext_ext fs present
              ++ ", unable to load matrix!" ++ newline]) /\
  load_matrix fs (Some missing)
  = Raise (mkExn IOError
             ["filename: " ++ missing ++ " does not exist. Can not load matrix"]).
Proof.
  intros Hp Htxt Hnpy Hm. split; [reflexivity|]. split.
  - unfold load_matrix. rewrite Hp.
    destruct (String.eqb_spec (splitext_ext fs present) ".txt"); [contradiction|].
    destruct (String.eqb_spec (splitext_ext fs present) ".npy"); [contradiction|].
    reflexivity.
  - unfold load_matrix. rewrite Hm. reflexivity.
Qed.

Lemma load_matrix_errors_witness :
  let fs := mkFileSystem (String.eqb "mask.png") (fun _ => ".png")
              (fun _ => Ok [[true]]) (fun _ => Ok [[true]]) in
  load_matrix fs None = Ok None /\
  load_matrix fs (Some "mask.png")
  = Raise (mkExn ValueError
             ["unknown extension " ++ splitext_ext fs "mask.png"
              ++ ", unable to load matrix!" ++ newline]) /\
  load_matrix fs (Some "mask.npy")
  = Raise (mkExn IOError
             ["filename: " ++ "mask.npy" ++ " does not exist. Can not load matrix"]).
Proof.
  intros fs.
  apply (load_matrix_errors fs "mask.png" "mask.npy");
    [reflexivity | discriminate | discriminate | reflexivity].
Defined.

End MaskLoaderProperties.

Section ConfigurationProperties.
Local Open Scope string_scope.

Lemma dict_get_remove_other d k key :
  key <> k -> dict_get (dict_remove d k) key = dict_get d key.
Proof.
  intros Hne. unfold dict_remove.
  induction d as [|[k' v] d IH]; simpl; [reflexivity|].
  destruct (String.eqb_spec k' k) as [->|Hk]; simpl.
  - rewrite IH. destruct (String.eqb_spec k key); [congruence|reflexivity].
  - rewrite IH. reflexivity.
Qed.

Variable B : Type.
Variable env : ConfigEnv B.

(** The parent's [parse_config] leaves the [detrot] option alone. *)
Hypothesis super_keeps_detrot :
  forall config config' b,
    super_parse_config env config = Ok (config', b) ->
    dict_get config' "detrot" = dict_get config "detrot".

(** The options read before it do not touch [detrot]. *)
Lemma parse_config_head_keeps_detrot config c config' :
  parse_config_head env config = Ok (c, config') ->
  dict_get config' "detrot" = dict_get config "detrot".
Proof using super_keeps_detrot.
  unfold parse_config_head, pop, pop_default, bind.
  destruct (super_parse_config env config) as [[config1 b]|] eqn:Hsup;
    [|discriminate].
  apply super_keeps_detrot in Hsup. rewrite <- Hsup. clear Hsup.
  destruct (parse_multi_range env (dict_get config1 "xmask")); [|discriminate].
  destruct (parse_multi_range env _); [|discriminate].
  destruct (dict_get _ "nexusfile"); [|discriminate].
  destruct (match dict_get _ "pr" with Some _ => _ | None => _ end);
    [|discriminate].
  destruct (dict_get _ "sdd"); [|discriminate].
  destruct (float_of_string env _); [|discriminate].
  destruct (dict_get _ "centralpixel"); [|discriminate].
  destruct (parse_tuple env _); [|discriminate].
  intros Heq. injection Heq as _ <-.
  repeat (rewrite dict_get_remove_other by discriminate). reflexivity.
Qed.

Lemma parse_detrot_unparsable config text e :
  dict_get config "detrot" = Some text ->
  float_of_string env text = Raise e -> exn_kind e = ValueError ->
  parse_detrot env config = Ok (None, dict_remove config "detrot").
Proof.
  intros Hget Hf Hk. unfold parse_detrot, pop_default, is_ValueError.
  rewrite Hget, Hf, Hk. reflexivity.
Qed.

(** C10: when [detrot] is in the configuration and [float] raises
    ValueError on its text, [parse_config] raises nothing on its
    account: it ends as the options before it end, with [detrot] set to
    [None]; and with [detrot] at [None] the detector rotation of every
    frame is the chain of its axes alone, without the roll. *)
Theorem parse_config_detrot_unparsable (config : dict) (text : string) (e : exn) :
  dict_get config "detrot" = Some text ->
  float_of_string env text = Raise e -> exn_kind e = ValueError ->
  parse_config env config
  = match parse_config_head env config with
    | Ok (c, config') =>
        Ok (mkConfig (base c) (xmask c) (ymask c) (nexusfile c) (config_pr c)
                     (sdd c) (centralpixel c) (maskmatrix c) None,
            dict_remove config' "detrot")
    | Raise e' => Raise e'
    end
  /\ (forall c config', parse_config env config = Ok (c, config') ->
        detrot c = None /\
        forall d_values d_axes,
          detector_rotation (detrot c) d_values d_axes
          = rotation_matrix (map radians d_values) d_axes).
Proof using super_keeps_detrot.
  intros Hget Hf Hk.
  assert (Heq : parse_config env config
    = match parse_config_head env config with
      | Ok (c, config') =>
          Ok (mkConfig (base c) (xmask c) (ymask c) (nexusfile c) (config_pr c)
                       (sdd c) (centralpixel c) (maskmatrix c) None,
              dict_remove config' "detrot")
      | Raise e' => Raise e'
      end).
  { unfold parse_config.
    destruct (parse_config_head env config) as [[c config']|e'] eqn:Hhead;
      [|reflexivity].
    simpl. rewrite <- (parse_config_head_keeps_detrot _ _ _ Hhead) in Hget.
    rewrite (parse_detrot_unparsable _ _ _ Hget Hf Hk). reflexivity. }
  split; [exact Heq|].
  intros c config' Hc. rewrite Heq in Hc.
  destruct (parse_config_head env config) as [[c0 config0]|e']; [|discriminate].
  injection Hc as <- _. simpl. split; [reflexivity|].
  intros d_values d_axes. unfold detector_rotation, rotation_matrix.
  destruct (reduce dot _); reflexivity.
Qed.

End ConfigurationProperties.

Lemma parse_config_detrot_unparsable_witness :
  let env := mkConfigEnv (fun config => Ok (config, tt)) (fun _ => Ok None)
               (fun _ => Ok (0, 0)%Z)
               (fun text => if String.eqb text "1.5"%string then Ok 1.5%R
                            else Raise (mkExn ValueError [text])) in
  let config := [("nexusfile", "scan_{scanno}.nxs"); ("sdd", "1.5");
                 ("centralpixel", "10,20"); ("detrot", "none")]%string in
  parse_config env config
  = match parse_config_head env config with
    | Ok (c, config') =>
        Ok (mkConfig (base c) (xmask c) (ymask c) (nexusfile c) (config_pr c)
                     (sdd c) (centralpixel c) (maskmatrix c) None,
            dict_remove config' "detrot"%string)
    | Raise e' => Raise e'
    end
  /\ (forall c config', parse_config env config = Ok (c, config') ->
        detrot c = None /\
        forall d_values d_axes,
          detector_rotation (detrot c) d_values d_axes
          = rotation_matrix (map radians d_values) d_axes).
Proof.
  intros env config.
  apply (parse_config_detrot_unparsable unit env
           (fun config config' b H =>
              f_equal (fun r => match r with
                                | Ok (c, _) => dict_get c "detrot"%string
                                | Raise _ => dict_get config' "detrot"%string
                                end) (eq_sym H))
           config "none"%string (mkExn ValueError ["none"%string]));
    reflexivity.
Defined.

Section FrameLoopProperties.
Local Open Scope string_scope.

Variables File D Px Fr : Type.
Variable be : Backend File D Px Fr.

(** The points before the first failing one are yielded, the failure
    ends the loop, and no later point is processed. *)
Lemma process_points_stops dataframe pixels done frames index e rest :
  Forall2 (fun i fr => process_image be i dataframe pixels = Ok fr) done frames ->
  process_image be index dataframe pixels = Raise e ->
  process_points be dataframe pixels (done ++ index :: rest)
  = mkTrace frames (Some e).
Proof.
  intros Hdone Hfail. induction Hdone as [|i fr done frames Hi _ IH]; simpl.
  - rewrite Hfail. reflexivity.
  - rewrite Hi, IH. reflexivity.
Qed.

(** What the loops raise, [process_job] raises again, the note added to
    its message; what they yielded before stays yielded. *)
Lemma process_job_reraises self job scan_file dfs frames exc :
  open_scan be (scan job) = Ok scan_file ->
  dataframes be scan_file = Ok dfs ->
  process_dataframes be job dfs = mkTrace frames (Some exc) ->
  process_job be self job
  = mkTrace frames
      (Some (mkExn (exn_kind exc) (addmessage (exn_args exc) (error_note self)))).
Proof.
  intros Ho Hd Hp. unfold process_job. rewrite Ho, Hd, Hp. reflexivity.
Qed.

End FrameLoopProperties.

(** The note names no scan and no point: both fields read [None]. *)
Lemma error_note_None :
  error_note SIXS_attributes
  = ", An error occured for scan None at point None. See above for more information"%string.
Proof. reflexivity. Qed.

(** C5: scan 7, points 0 to 2, where point 1 fails with ValueError("bad
    frame").  Point 0 is yielded, the error is raised again and point 2
    is never processed, as the claim says; but the note added to the
    message reads "scan None at point None", where the claim has the
    scan identifier 7 and the point index 1. *)
Theorem process_job_note_names_no_point :
  let be := mkBackend (fun _ => Ok tt) (fun _ => Ok [tt]) (fun _ => Ok tt)
              (fun index _ _ =>
                 if (index =? 1)%Z
                 then Raise (mkExn ValueError ["bad frame"%string])
                 else Ok index) in
  process_job be SIXS_attributes (mkJob 7 0 2 3)
  = mkTrace [0%Z]
      (Some (mkExn ValueError
         ["bad frame, An error occured for scan None at point None. See above for more information"%string])).
Proof. vm_compute. reflexivity. Qed.

(* ================================================================== *)
(** * Further properties: rotations *)
(* ================================================================== *)

(** Splits an equation between tuples into the equations of the entries. *)
Ltac entries := repeat match goal with |- (_, _) = (_, _) => apply f_equal2 end.

Section RotationAlgebra.
Local Open Scope R_scope.

Lemma dot_assoc a b c : dot (dot a b) c = dot a (dot b c).
Proof.
  destruct a as [[[[a00 a01] a02] [[a10 a11] a12]] [[a20 a21] a22]].
  destruct b as [[[[b00 b01] b02] [[b10 b11] b12]] [[b20 b21] b22]].
  destruct c as [[[[c00 c01] c02] [[c10 c11] c12]] [[c20 c21] c22]].
  cbv beta iota delta [dot]. entries; ring.
Qed.

Lemma dot_vec_dot a b v : dot_vec (dot a b) v = dot_vec a (dot_vec b v).
Proof.
  destruct a as [[[[a00 a01] a02] [[a10 a11] a12]] [[a20 a21] a22]].
  destruct b as [[[[b00 b01] b02] [[b10 b11] b12]] [[b20 b21] b22]].
  destruct v as [[v0 v1] v2].
  cbv beta iota delta [dot dot_vec]. entries; ring.
Qed.

Lemma transpose_dot a b : transpose (dot a b) = dot (transpose b) (transpose a).
Proof.
  destruct a as [[[[a00 a01] a02] [[a10 a11] a12]] [[a20 a21] a22]].
  destruct b as [[[[b00 b01] b02] [[b10 b11] b12]] [[b20 b21] b22]].
  cbv beta iota delta [dot transpose]. entries; ring.
Qed.

Lemma det_dot a b : det (dot a b) = det a * det b.
Proof.
  destruct a as [[[[a00 a01] a02] [[a10 a11] a12]] [[a20 a21] a22]].
  destruct b as [[[[b00 b01] b02] [[b10 b11] b12]] [[b20 b21] b22]].
  cbv beta iota delta [dot det]. ring.
Qed.

Lemma det_identity : det identity = 1.
Proof. cbv beta iota delta [det identity]. ring. Qed.

(** A right inverse is what [inv] returns. *)
Lemma inv_right_inverse a b : dot a b = identity -> inv a = Ok b.
Proof.
  intros Hab. apply inv_Ok; [|exact Hab].
  intros Hz. pose proof (det_dot a b) as Hd.
  rewrite Hab, det_identity, Hz in Hd. lra.
Qed.

Lemma M_neg theta u : M (- theta) u = transpose (M theta u).
Proof.
  destruct u as [[u0 u1] u2]. unfold M, transpose.
  rewrite cos_neg, sin_neg. entries; ring.
Qed.

End RotationAlgebra.

Section RotationChains.
Local Open Scope R_scope.

(** X1: two rotations about the same unit axis compose to the rotation
    by the sum of the angles. *)
Theorem M_additive (a b : R) (u : vec) :
  unit_vector u -> dot (M a u) (M b u) = M (a + b) u.
Proof.
  destruct u as [[u0 u1] u2]. unfold unit_vector. intros Hu.
  assert (Hd : u0 ^ 2 + u1 ^ 2 + u2 ^ 2 - 1 = 0) by lra.
  unfold M. rewrite cos_plus, sin_plus.
  set (ca := cos a). set (sa := sin a). set (cb := cos b). set (sb := sin b).
  cbv beta iota delta [dot].
  assert (Hent : forall L R0 d ui uj,
             L = R0 + (u0 ^ 2 + u1 ^ 2 + u2 ^ 2 - 1)
                      * (- (sa * sb) * d + (1 - ca) * (1 - cb) * (ui * uj)) ->
             L = R0).
  { intros L R0 d ui uj ->. rewrite Hd. ring. }
  entries.
  - apply (Hent _ _ 1 u0 u0). ring.
  - apply (Hent _ _ 0 u0 u1). ring.
  - apply (Hent _ _ 0 u0 u2). ring.
  - apply (Hent _ _ 0 u1 u0). ring.
  - apply (Hent _ _ 1 u1 u1). ring.
  - apply (Hent _ _ 0 u1 u2). ring.
  - apply (Hent _ _ 0 u2 u0). ring.
  - apply (Hent _ _ 0 u2 u1). ring.
  - apply (Hent _ _ 1 u2 u2). ring.
Qed.

Lemma M_additive_witness :
  dot (M (PI / 2) (0, 0, 1)) (M (PI / 3) (0, 0, 1)) = M (PI / 2 + PI / 3) (0, 0, 1).
Proof.
  apply (M_additive (PI / 2) (PI / 3) (0, 0, 1)). simpl. lra.
Defined.

(** X2: a rotation leaves its own unit axis where it is. *)
Theorem M_fixes_axis (theta : R) (u : vec) :
  unit_vector u -> dot_vec (M theta u) u = u.
Proof.
  destruct u as [[u0 u1] u2]. unfold unit_vector. intros Hu.
  assert (Hd : u0 ^ 2 + u1 ^ 2 + u2 ^ 2 - 1 = 0) by lra.
  unfold M. set (c := cos theta). set (s := sin theta).
  cbv beta iota delta [dot_vec].
  assert (Hent : forall L ui,
             L = ui + (1 - c) * (u0 ^ 2 + u1 ^ 2 + u2 ^ 2 - 1) * ui -> L = ui).
  { intros L ui ->. rewrite Hd. ring. }
  entries; apply Hent; ring.
Qed.

Lemma M_fixes_axis_witness :
  dot_vec (M (PI / 2) (0, -1, 0)) (0, -1, 0) = (0, -1, 0).
Proof.
  apply (M_fixes_axis (PI / 2) (0, -1, 0)). simpl. lra.
Defined.

(** X3: [numpy.linalg.inv] of a rotation about a unit axis does not
    raise and is the rotation by the opposite angle, which is also the
    transpose. *)
Theorem inv_M (theta : R) (u : vec) :
  unit_vector u ->
  inv (M theta u) = Ok (M (- theta) u) /\ M (- theta) u = transpose (M theta u).
Proof.
  intros Hu. split; [|apply M_neg].
  apply inv_right_inverse. rewrite M_neg. apply M_orthogonal. exact Hu.
Qed.

Lemma inv_M_witness :
  inv (M (PI / 2) (0, 0, 1)) = Ok (M (- (PI / 2)) (0, 0, 1)) /\
  M (- (PI / 2)) (0, 0, 1) = transpose (M (PI / 2) (0, 0, 1)).
Proof.
  apply (inv_M (PI / 2) (0, 0, 1)). simpl. lra.
Defined.

Lemma orthogonal_identity : orthogonal identity.
Proof.
  unfold orthogonal. cbv beta iota delta [dot transpose identity]. entries; ring.
Qed.

Lemma orthogonal_dot a b : orthogonal a -> orthogonal b -> orthogonal (dot a b).
Proof.
  unfold orthogonal. intros Ha Hb.
  rewrite transpose_dot, dot_assoc, <- (dot_assoc b), Hb, dot_identity_l.
  exact Ha.
Qed.

Lemma orthogonal_fold ms m :
  Forall orthogonal ms -> orthogonal m -> orthogonal (fold_left dot ms m).
Proof.
  intros Hms. revert m. induction Hms as [|x ms Hx _ IH]; simpl; intros m Hm.
  - exact Hm.
  - apply IH. apply orthogonal_dot; assumption.
Qed.

Lemma orthogonal_zip_M values axes :
  Forall unit_vector axes -> Forall orthogonal (zip_with M values axes).
Proof.
  intros Hax. revert values. induction Hax as [|u axes Hu _ IH]; intros [|v values];
    simpl; constructor.
  - apply M_orthogonal. exact Hu.
  - apply IH.
Qed.

Lemma orthogonal_reduce ms m :
  Forall orthogonal ms -> reduce dot ms = Ok m -> orthogonal m.
Proof.
  intros Hms Hr. destruct ms as [|x ms]; [discriminate|].
  simpl in Hr. injection Hr as <-. inversion Hms; subst.
  apply orthogonal_fold; assumption.
Qed.

(** X4: the product of the rotations of a chain of unit axes is
    orthogonal, whatever the angles, and [numpy.linalg.inv] of it is its
    transpose. *)
Theorem rotation_matrix_orthogonal (values : list R) (axes : list vec) (m : mat) :
  Forall unit_vector axes -> rotation_matrix values axes = Ok m ->
  dot m (transpose m) = identity /\ inv m = Ok (transpose m).
Proof.
  intros Hax Hm.
  assert (Ho : orthogonal m).
  { apply (orthogonal_reduce (zip_with M values axes)); [|exact Hm].
    apply orthogonal_zip_M. exact Hax. }
  split; [exact Ho|]. apply inv_right_inverse. exact Ho.
Qed.

Lemma rotation_matrix_orthogonal_witness :
  let values := [PI / 2; PI / 3] in
  let axes : list vec := [(0, 0, 1); (0, -1, 0)] in
  let m := dot (M (PI / 2) (0, 0, 1)) (M (PI / 3) (0, -1, 0)) in
  dot m (transpose m) = identity /\ inv m = Ok (transpose m).
Proof.
  intros values axes m.
  apply (rotation_matrix_orthogonal values axes m).
  - repeat constructor; simpl; lra.
  - reflexivity.
Defined.

Lemma zip_with_surplus_l {A B C : Type} (f : A -> B -> C) xs ys extra :
  List.length xs = List.length ys -> zip_with f (xs ++ extra) ys = zip_with f xs ys.
Proof.
  revert ys. induction xs as [|x xs IH]; intros [|y ys] Hl; simpl in *;
    try discriminate.
  - destruct extra; reflexivity.
  - f_equal. apply IH. lia.
Qed.

Lemma zip_with_surplus_r {A B C : Type} (f : A -> B -> C) xs ys extra :
  List.length xs = List.length ys -> zip_with f xs (ys ++ extra) = zip_with f xs ys.
Proof.
  revert ys. induction xs as [|x xs IH]; intros [|y ys] Hl; simpl in *;
    try discriminate.
  - reflexivity.
  - f_equal. apply IH. lia.
Qed.

Lemma zip_with_app {A B C : Type} (f : A -> B -> C) xs ys xs' ys' :
  List.length xs = List.length ys ->
  zip_with f (xs ++ xs') (ys ++ ys') = zip_with f xs ys ++ zip_with f xs' ys'.
Proof.
  revert ys. induction xs as [|x xs IH]; intros [|y ys] Hl; simpl in *;
    try discriminate.
  - reflexivity.
  - f_equal. apply IH. lia.
Qed.

(** X5: [rotation_matrix] has no empty product: without values or
    without axes it raises TypeError; and when one list is longer than
    the other, the surplus is dropped without an error. *)
Theorem rotation_matrix_lengths (values extra_values : list R)
    (axes extra_axes : list vec) :
  List.length values = List.length axes ->
  (exists e, rotation_matrix [] axes = Raise e /\ exn_kind e = TypeError) /\
  (exists e, rotation_matrix values [] = Raise e /\ exn_kind e = TypeError) /\
  rotation_matrix (values ++ extra_values) axes = rotation_matrix values axes /\
  rotation_matrix values (axes ++ extra_axes) = rotation_matrix values axes.
Proof.
  intros Hl. unfold rotation_matrix. repeat split.
  - eexists. split; reflexivity.
  - destruct values; eexists; split; reflexivity.
  - rewrite zip_with_surplus_l by exact Hl. reflexivity.
  - rewrite zip_with_surplus_r by exact Hl. reflexivity.
Qed.

Lemma rotation_matrix_lengths_witness :
  (exists e, rotation_matrix [] [(0, 0, 1)] = Raise e /\ exn_kind e = TypeError) /\
  (exists e, rotation_matrix [PI] [] = Raise e /\ exn_kind e = TypeError) /\
  rotation_matrix ([PI] ++ [PI / 2]) [(0, 0, 1)] = rotation_matrix [PI] [(0, 0, 1)] /\
  rotation_matrix [PI] ([(0, 0, 1)] ++ [(0, -1, 0)])
  = rotation_matrix [PI] [(0, 0, 1)].
Proof.
  apply (rotation_matrix_lengths [PI] [PI / 2] [(0, 0, 1)] [(0, -1, 0)]).
  reflexivity.
Defined.

Lemma fold_left_dot a b ms :
  fold_left dot ms (dot a b) = dot a (fold_left dot ms b).
Proof.
  revert b. induction ms as [|m ms IH]; simpl; intros b; [reflexivity|].
  rewrite dot_assoc. apply IH.
Qed.

(** X6: chains compose from the root outwards: the rotation of a chain
    followed by a second chain is the product of the two rotations, the
    first on the left. *)
Theorem rotation_matrix_app (values1 values2 : list R) (axes1 axes2 : list vec)
    (m1 m2 : mat) :
  List.length values1 = List.length axes1 ->
  rotation_matrix values1 axes1 = Ok m1 ->
  rotation_matrix values2 axes2 = Ok m2 ->
  rotation_matrix (values1 ++ values2) (axes1 ++ axes2) = Ok (dot m1 m2).
Proof.
  unfold rotation_matrix. intros Hl H1 H2.
  rewrite zip_with_app by exact Hl.
  destruct (zip_with M values1 axes1) as [|x1 l1]; [discriminate|].
  destruct (zip_with M values2 axes2) as [|x2 l2]; [discriminate|].
  simpl in *. injection H1 as <-. injection H2 as <-.
  rewrite fold_left_app. simpl. rewrite fold_left_dot. reflexivity.
Qed.

Lemma rotation_matrix_app_witness :
  rotation_matrix ([PI / 2] ++ [PI / 3; PI / 4])
                  ([(0, 0, 1)] ++ [(0, -1, 0); (0, 0, 1)])
  = Ok (dot (M (PI / 2) (0, 0, 1))
            (dot (M (PI / 3) (0, -1, 0)) (M (PI / 4) (0, 0, 1)))).
Proof.
  apply (rotation_matrix_app [PI / 2] [PI / 3; PI / 4]
           [(0, 0, 1)] [(0, -1, 0); (0, 0, 1)]); reflexivity.
Defined.

End RotationChains.

(* ================================================================== *)
(** * Further properties: directions and projections *)
(* ================================================================== *)

Section DirectionProperties.
Local Open Scope R_scope.

Lemma norm_nonneg x y z : 0 <= x * x + y * y + z * z.
Proof. nra. Qed.

(** The direction of a vector that is not 0 has length 1. *)
Lemma direction_length x y z :
  sqrt (x * x + y * y + z * z) <> 0 ->
  let '(dx, dy, dz) := direction (x, y, z) in
  sqrt (dx * dx + dy * dy + dz * dz) = 1.
Proof.
  intros Hn. unfold direction.
  destruct (Req_dec_T (sqrt (x * x + y * y + z * z)) 0) as [E|_]; [contradiction|].
  set (n := sqrt (x * x + y * y + z * z)) in *.
  assert (Hsq : n * n = x * x + y * y + z * z)
    by (apply sqrt_sqrt, norm_nonneg).
  replace (x / n * (x / n) + y / n * (y / n) + z / n * (z / n))
    with ((x * x + y * y + z * z) / (n * n)) by (field; exact Hn).
  rewrite <- Hsq. replace (n * n / (n * n)) with 1 by (field; exact Hn).
  apply sqrt_1.
Qed.

Lemma direction_zero : direction (0, 0, 0) = (0, 0, 0).
Proof.
  unfold direction. replace (0 * 0 + 0 * 0 + 0 * 0) with 0 by ring.
  rewrite sqrt_0. destruct (Req_dec_T 0 0); [|congruence].
  entries; field.
Qed.

Lemma direction_idempotent p : direction (direction p) = direction p.
Proof.
  destruct p as [[x y] z].
  destruct (Req_dec_T (sqrt (x * x + y * y + z * z)) 0) as [Hz|Hn].
  - destruct (sum_squares_0 x y z Hz) as (-> & -> & ->).
    rewrite direction_zero. apply direction_zero.
  - pose proof (direction_length x y z Hn) as Hl.
    destruct (direction (x, y, z)) as [[dx dy] dz].
    apply direction_unit.
    rewrite <- (sqrt_sqrt (dx * dx + dy * dy + dz * dz)) by apply norm_nonneg.
    rewrite Hl. ring.
Qed.

Lemma direction_scale t x y z :
  0 < t -> direction (x * t, y * t, z * t) = direction (x, y, z).
Proof.
  intros Ht. unfold direction.
  replace (x * t * (x * t) + y * t * (y * t) + z * t * (z * t))
    with ((x * x + y * y + z * z) * (t * t)) by ring.
  rewrite sqrt_mult by (try apply norm_nonneg; nra).
  rewrite sqrt_square by lra.
  set (n := sqrt (x * x + y * y + z * z)).
  destruct (Req_dec_T n 0) as [Hz|Hn].
  - rewrite Hz, Rmult_0_l. destruct (Req_dec_T 0 0); [|congruence].
    unfold n in Hz. destruct (sum_squares_0 x y z Hz) as (-> & -> & ->).
    entries; field.
  - destruct (Req_dec_T (n * t) 0) as [E|_]; [nra|].
    entries; field; split; lra.
Qed.

(** Two arrays of one shape with the same entries are the same array. *)
Lemma grid_ext H W g1 g2 :
  has_shape H W g1 -> has_shape H W g2 ->
  (forall i j, (i < H)%nat -> (j < W)%nat -> grid_at g1 i j = grid_at g2 i j) ->
  g1 = g2.
Proof.
  intros H1 H2 Hat.
  apply (nth_ext g1 g2 [] []); [destruct H1, H2; lia|].
  intros i Hi. assert (Hi' : (i < H)%nat) by (destruct H1; lia).
  apply (nth_ext _ _ 0 0).
  - rewrite (has_shape_row H W g1 i H1 Hi'), (has_shape_row H W g2 i H2 Hi').
    reflexivity.
  - intros j Hj. rewrite (has_shape_row H W g1 i H1 Hi') in Hj.
    apply (Hat i j Hi' Hj).
Qed.

Lemma arr3_ext H W a b :
  arr3_shape H W a -> arr3_shape H W b ->
  (forall i j, (i < H)%nat -> (j < W)%nat -> pixel_at a i j = pixel_at b i j) ->
  a = b.
Proof.
  destruct a as [[a0 a1] a2], b as [[b0 b1] b2].
  intros (Ha0 & Ha1 & Ha2) (Hb0 & Hb1 & Hb2) Hat.
  assert (E0 : a0 = b0).
  { apply (grid_ext H W); auto. intros i j Hi Hj.
    specialize (Hat i j Hi Hj). unfold pixel_at in Hat. congruence. }
  assert (E1 : a1 = b1).
  { apply (grid_ext H W); auto. intros i j Hi Hj.
    specialize (Hat i j Hi Hj). unfold pixel_at in Hat. congruence. }
  assert (E2 : a2 = b2).
  { apply (grid_ext H W); auto. intros i j Hi Hj.
    specialize (Hat i j Hi Hj). unfold pixel_at in Hat. congruence. }
  subst. reflexivity.
Qed.

(** X7: [normalized] returns an array of the shape of its input in
    which every column that was not 0 has length 1. *)
Theorem normalized_unit_length (H W : nat) (a : arr3) (i j : nat) :
  arr3_shape H W a -> (i < H)%nat -> (j < W)%nat ->
  grid_at (norm_axis0 a) i j <> 0 ->
  arr3_shape H W (normalized a) /\ grid_at (norm_axis0 (normalized a)) i j = 1.
Proof.
  intros Ha Hi Hj Hn.
  pose proof (normalized_shape H W a Ha) as Hs. split; [exact Hs|].
  rewrite (norm_axis0_at H W _ i j Hs Hi Hj).
  rewrite (normalized_at H W a i j Ha Hi Hj).
  rewrite (norm_axis0_at H W a i j Ha Hi Hj) in Hn.
  destruct (pixel_at a i j) as [[x y] z].
  apply (direction_length x y z Hn).
Qed.

(** X8: [normalized] is idempotent. *)
Theorem normalized_idempotent (H W : nat) (a : arr3) :
  arr3_shape H W a -> normalized (normalized a) = normalized a.
Proof.
  intros Ha. pose proof (normalized_shape H W a Ha) as Hs.
  apply (arr3_ext H W); auto using normalized_shape.
  intros i j Hi Hj.
  rewrite (normalized_at H W _ i j Hs Hi Hj), (normalized_at H W a i j Ha Hi Hj).
  apply direction_idempotent.
Qed.

(** X9: [normalized] does not see the scale of its input: an array
    times a positive scalar has the same directions. *)
Theorem normalized_scale (H W : nat) (a : arr3) (t : R) :
  arr3_shape H W a -> 0 < t -> normalized (scale a t) = normalized a.
Proof.
  intros Ha Ht. pose proof (scale_shape H W a t Ha) as Hs.
  apply (arr3_ext H W); auto using normalized_shape.
  intros i j Hi Hj.
  rewrite (normalized_at H W _ i j Hs Hi Hj), (normalized_at H W a i j Ha Hi Hj).
  rewrite (scale_at H W a t i j Ha Hi Hj).
  destruct (pixel_at a i j) as [[x y] z]. apply direction_scale. exact Ht.
Qed.

Lemma two_pixel_shape : arr3_shape 1 2 ([[0; 3]], [[0; 4]], [[0; 0]]).
Proof. simpl. unfold has_shape. simpl. repeat split; repeat constructor. Qed.

Lemma normalized_unit_length_witness :
  let a : arr3 := ([[0; 3]], [[0; 4]], [[0; 0]]) in
  arr3_shape 1 2 (normalized a) /\ grid_at (norm_axis0 (normalized a)) 0 1 = 1.
Proof.
  intros a.
  apply (normalized_unit_length 1 2 a 0 1 two_pixel_shape); [lia | lia |].
  unfold a, grid_at. simpl. intros E. apply sqrt_eq_0 in E; lra.
Defined.

Lemma normalized_idempotent_witness :
  let a : arr3 := ([[0; 3]], [[0; 4]], [[0; 0]]) in
  normalized (normalized a) = normalized a.
Proof.
  intros a. apply (normalized_idempotent 1 2 a two_pixel_shape).
Defined.

Lemma normalized_scale_witness :
  let a : arr3 := ([[0; 3]], [[0; 4]], [[0; 0]]) in
  normalized (scale a 2) = normalized a.
Proof.
  intros a. apply (normalized_scale 1 2 a 2 two_pixel_shape). lra.
Defined.

End DirectionProperties.

Section MoreProjectionProperties.
Local Open Scope R_scope.

Lemma direction_on_axis x : 0 < x -> direction (x, 0, 0) = (1, 0, 0).
Proof.
  intros Hx. unfold direction.
  replace (x * x + 0 * 0 + 0 * 0) with (x * x) by ring.
  rewrite sqrt_square by lra.
  destruct (Req_dec_T x 0); [lra|]. entries; field; lra.
Qed.

(** X10: with the detector at rest (P = I), a pixel on the beam axis,
    at (x, 0, 0) with 0 < x, has zero momentum transfer: its HKL is
    (0, 0, 0) whatever R, UB and k. *)
Theorem HKL_zero_on_beam_axis (pdf : PDataFrame) (H W i j : nat)
    (RUB_1 : mat) (x : R) :
  arr3_shape H W (pdf_pixels pdf) -> (i < H)%nat -> (j < W)%nat ->
  inv (dot (pdf_R pdf) (pdf_ub pdf)) = Ok RUB_1 ->
  pdf_P pdf = identity -> 0 < x -> pixel_at (pdf_pixels pdf) i j = (x, 0, 0) ->
  exists hkl, HKLProjection_project pdf = Ok hkl /\ pixel_at hkl i j = (0, 0, 0).
Proof.
  intros Hs Hi Hj Hinv HP Hx Hpix.
  destruct (HKLProjection_project_at pdf H W i j RUB_1 Hs Hi Hj Hinv)
    as (hkl & Hp & _ & Hat).
  exists hkl. split; [exact Hp|]. rewrite Hat, HP, Hpix.
  unfold hkl_of_pixel. rewrite dot_identity_r, (direction_on_axis x Hx).
  destruct RUB_1 as [[[[a00 a01] a02] [[a10 a11] a12]] [[a20 a21] a22]].
  cbv beta iota delta [dot_vec vec_sub vec_scale]. entries; ring.
Qed.

Lemma HKL_zero_on_beam_axis_witness :
  let pdf := mkPDataFrame ([[2]], [[0]], [[0]]) 3 identity identity identity in
  exists hkl, HKLProjection_project pdf = Ok hkl /\ pixel_at hkl 0 0 = (0, 0, 0).
Proof.
  intros pdf.
  apply (HKL_zero_on_beam_axis pdf 1 1 0 0 identity 2).
  - simpl. unfold has_shape. simpl. repeat split; repeat constructor.
  - lia.
  - lia.
  - change (inv (dot identity identity) = Ok identity).
    rewrite dot_identity_l. exact inv_identity.
  - reflexivity.
  - lra.
  - reflexivity.
Defined.

(** The inverse of a rotation times 2 pi. *)
Lemma inv_rotation_2pi R0 :
  orthogonal R0 ->
  inv (dot R0 diag_2pi) = Ok (mat_scale (1 / (2 * PI)) (transpose R0)).
Proof.
  intros Ho. pose proof PI_neq0 as Hpi. apply inv_right_inverse.
  unfold orthogonal in Ho.
  destruct R0 as [[[[r00 r01] r02] [[r10 r11] r12]] [[r20 r21] r22]].
  cbv beta iota delta [dot transpose identity] in Ho.
  injection Ho as E00 E01 E02 E10 E11 E12 E20 E21 E22.
  cbv beta iota delta [dot transpose identity diag_2pi mat_scale].
  entries.
  - eapply eq_trans; [|exact E00]. field. exact Hpi.
  - eapply eq_trans; [|exact E01]. field. exact Hpi.
  - eapply eq_trans; [|exact E02]. field. exact Hpi.
  - eapply eq_trans; [|exact E10]. field. exact Hpi.
  - eapply eq_trans; [|exact E11]. field. exact Hpi.
  - eapply eq_trans; [|exact E12]. field. exact Hpi.
  - eapply eq_trans; [|exact E20]. field. exact Hpi.
  - eapply eq_trans; [|exact E21]. field. exact Hpi.
  - eapply eq_trans; [|exact E22]. field. exact Hpi.
Qed.

(** X11: for an orthogonal sample rotation R the Qx/Qy/Qz projection
    never raises, and the Q of a pixel is k / (2 pi) times the
    difference of R^T.P applied to its direction and R^T applied to
    (1, 0, 0). *)
Theorem QxQyQz_of_rotation (pdf : PDataFrame) (H W i j : nat) :
  arr3_shape H W (pdf_pixels pdf) -> (i < H)%nat -> (j < W)%nat ->
  dot (pdf_R pdf) (transpose (pdf_R pdf)) = identity ->
  exists q,
    QxQyQzProjection_project pdf = Ok q /\ arr3_shape H W q /\
    pixel_at q i j
    = vec_scale
        (vec_sub (dot_vec (dot (transpose (pdf_R pdf)) (pdf_P pdf))
                          (direction (pixel_at (pdf_pixels pdf) i j)))
                 (dot_vec (transpose (pdf_R pdf)) (1, 0, 0)))
        (pdf_k pdf / (2 * PI)).
Proof.
  intros Hs Hi Hj Ho. pose proof PI_neq0 as Hpi.
  destruct pdf as [pixels k UB R0 P].
  cbv beta iota delta [pdf_pixels pdf_R pdf_P pdf_k] in *.
  destruct (HKLProjection_project_at (mkPDataFrame pixels k diag_2pi R0 P)
              H W i j _ Hs Hi Hj (inv_rotation_2pi R0 Ho))
    as (q & Hq & Hshape & Hat).
  exists q. split; [exact Hq|]. split; [exact Hshape|].
  rewrite Hat. cbv beta iota delta [pdf_pixels pdf_P pdf_k].
  unfold hkl_of_pixel.
  destruct (direction (pixel_at pixels i j)) as [[dx dy] dz].
  destruct (transpose R0) as [[[[t00 t01] t02] [[t10 t11] t12]] [[t20 t21] t22]].
  destruct P as [[[[p00 p01] p02] [[p10 p11] p12]] [[p20 p21] p22]].
  cbv beta iota delta [dot dot_vec vec_sub vec_scale mat_scale].
  entries; field; exact Hpi.
Qed.

Lemma QxQyQz_of_rotation_witness :
  let pdf := mkPDataFrame ([[2]], [[0]], [[0]]) 3 identity identity identity in
  exists q,
    QxQyQzProjection_project pdf = Ok q /\ arr3_shape 1 1 q /\
    pixel_at q 0 0
    = vec_scale
        (vec_sub (dot_vec (dot (transpose (pdf_R pdf)) (pdf_P pdf))
                          (direction (pixel_at (pdf_pixels pdf) 0 0)))
                 (dot_vec (transpose (pdf_R pdf)) (1, 0, 0)))
        (pdf_k pdf / (2 * PI)).
Proof.
  intros pdf.
  apply (QxQyQz_of_rotation pdf 1 1 0 0).
  - simpl. unfold has_shape. simpl. repeat split; repeat constructor.
  - lia.
  - lia.
  - exact orthogonal_identity.
Defined.

Lemma HKLProjection_project_shape pdf H W hkl :
  arr3_shape H W (pdf_pixels pdf) -> HKLProjection_project pdf = Ok hkl ->
  arr3_shape H W hkl.
Proof.
  destruct pdf as [pixels k UB R0 P]. simpl. intros Hs.
  destruct (inv (dot R0 UB)) as [RUB_1|e]; simpl; [|discriminate].
  set (r := scale _ k).
  assert (Hr : arr3_shape H W r).
  { unfold r. apply scale_shape, sub_broadcast_shape, tensordot_shape,
      normalized_shape. exact Hs. }
  destruct r as [[h k'] l]. intros Heq. injection Heq as <-. exact Hr.
Qed.

(** X12: Qpar and Qper.  Where the Qx/Qy/Qz projection gives (qx, qy,
    qz), the Qpar/Qper projection gives Qper = qz, and a Qpar that is
    nowhere negative and whose square is qx^2 + qy^2; where the former
    raises, so does the latter. *)
Theorem QparQper_of_QxQyQz (pdf : PDataFrame) (H W i j : nat) :
  arr3_shape H W (pdf_pixels pdf) -> (i < H)%nat -> (j < W)%nat ->
  match QxQyQzProjection_project pdf with
  | Raise e => QparQperProjection_project pdf = Raise e
  | Ok (qx, qy, qz) =>
      exists qpar,
        QparQperProjection_project pdf = Ok (qpar, qz) /\
        has_shape H W qpar /\
        0 <= grid_at qpar i j /\
        grid_at qpar i j * grid_at qpar i j
        = grid_at qx i j * grid_at qx i j + grid_at qy i j * grid_at qy i j
  end.
Proof.
  intros Hs Hi Hj. unfold QparQperProjection_project.
  destruct (QxQyQzProjection_project pdf) as [[[qx qy] qz]|e] eqn:Hq;
    [|reflexivity].
  assert (Hshape : arr3_shape H W (qx, qy, qz)).
  { apply (HKLProjection_project_shape
             (mkPDataFrame (pdf_pixels pdf) (pdf_k pdf) diag_2pi
                           (pdf_R pdf) (pdf_P pdf))); [exact Hs|].
    destruct pdf. exact Hq. }
  destruct Hshape as (Hx & Hy & _).
  simpl. eexists. split; [reflexivity|].
  assert (Hsum : has_shape H W
            (grid_zip Rplus (grid_zip Rmult qx qx) (grid_zip Rmult qy qy)))
    by (repeat apply has_shape_zip; assumption).
  split; [apply has_shape_map; exact Hsum|].
  rewrite (grid_at_map H W _ _ i j Hsum Hi Hj).
  rewrite (grid_at_zip H W) by (try apply has_shape_zip; assumption).
  rewrite !(grid_at_zip H W) by assumption.
  split; [apply sqrt_pos|]. apply sqrt_sqrt. nra.
Qed.

Lemma QparQper_of_QxQyQz_witness :
  let pdf := mkPDataFrame ([[2]], [[0]], [[0]]) 3 identity identity identity in
  match QxQyQzProjection_project pdf with
  | Raise e => QparQperProjection_project pdf = Raise e
  | Ok (qx, qy, qz) =>
      exists qpar,
        QparQperProjection_project pdf = Ok (qpar, qz) /\
        has_shape 1 1 qpar /\
        0 <= grid_at qpar 0 0 /\
        grid_at qpar 0 0 * grid_at qpar 0 0
        = grid_at qx 0 0 * grid_at qx 0 0 + grid_at qy 0 0 * grid_at qy 0 0
  end.
Proof.
  intros pdf.
  apply (QparQper_of_QxQyQz pdf 1 1 0 0); [|lia|lia].
  simpl. unfold has_shape. simpl. repeat split; repeat constructor.
Defined.

End MoreProjectionProperties.

(* ================================================================== *)
(** * Further properties: pixels, files and options *)
(* ================================================================== *)

Section PixelProperties.
Local Open Scope R_scope.

Lemma getitem_in_range {A : Type} (l : list A) (k : Z) (d : A) :
  (0 <= k < Z.of_nat (List.length l))%Z ->
  getitem l k = Ok (nth (Z.to_nat k) l d).
Proof.
  intros Hk. unfold getitem.
  destruct (Z.ltb_spec k 0); [lia|].
  destruct (Z.leb_spec 0 k); [|lia].
  destruct (Z.ltb_spec k (Z.of_nat (List.length l))); [|lia].
  simpl. destruct (nth_error l (Z.to_nat k)) as [x|] eqn:Hn.
  - rewrite (nth_error_nth _ _ d Hn). reflexivity.
  - apply nth_error_None in Hn. lia.
Qed.

Lemma getitem_out_of_range {A : Type} (l : list A) (k : Z) :
  (Z.of_nat (List.length l) <= k \/ k < - Z.of_nat (List.length l))%Z ->
  exists e, getitem l k = Raise e.
Proof.
  intros Hk. unfold getitem.
  destruct (Z.ltb_spec k 0).
  - destruct (Z.leb_spec 0 (k + Z.of_nat (List.length l))); simpl.
    + destruct (Z.ltb_spec (k + Z.of_nat (List.length l))
                           (Z.of_nat (List.length l))); [lia|].
      eexists. reflexivity.
    + eexists. reflexivity.
  - destruct (Z.leb_spec 0 k); [|lia]. simpl.
    destruct (Z.ltb_spec k (Z.of_nat (List.length l))); [lia|].
    eexists. reflexivity.
Qed.

Lemma getitem2_in_range H W (a : grid) (r c : Z) :
  has_shape H W a -> (0 <= r < Z.of_nat H)%Z -> (0 <= c < Z.of_nat W)%Z ->
  getitem2 a r c = Ok (grid_at a (Z.to_nat r) (Z.to_nat c)).
Proof.
  intros Ha Hr Hc. unfold getitem2, grid_at.
  rewrite (getitem_in_range a r []) by (destruct Ha; lia). simpl.
  apply getitem_in_range.
  rewrite (has_shape_row H W a (Z.to_nat r) Ha) by lia. exact Hc.
Qed.

(** The pixel array of [get_pixels], entry by entry. *)
Lemma get_pixels_of_at H W sdd cx cy (y x : grid) :
  has_shape H W y -> has_shape H W x ->
  (0 <= cx < Z.of_nat W)%Z -> (0 <= cy < Z.of_nat H)%Z ->
  exists pixels,
    get_pixels_of sdd (cx, cy) y x = Ok pixels /\ arr3_shape H W pixels /\
    forall i j, (i < H)%nat -> (j < W)%nat ->
      pixel_at pixels i j
      = (sdd,
         - (grid_at x i j - grid_at x (Z.to_nat cy) (Z.to_nat cx)),
         grid_at y i j - grid_at y (Z.to_nat cy) (Z.to_nat cx)).
Proof.
  intros Hy Hx Hcx Hcy. unfold get_pixels_of. simpl fst. simpl snd.
  rewrite (getitem2_in_range H W y cy cx Hy Hcy Hcx).
  rewrite (getitem2_in_range H W x cy cx Hx Hcy Hcx). simpl.
  eexists. split; [reflexivity|]. split.
  - simpl. split; [|split]; repeat apply has_shape_map; assumption.
  - intros i j Hi Hj. unfold pixel_at.
    rewrite !(grid_at_map H W) by (repeat apply has_shape_map; assumption).
    entries; ring.
Qed.

(** X13: [get_pixels] puts the central pixel on the beam axis.  For a
    central pixel (cx, cy) inside an H x W detector, the pixel array has
    the shape of the detector, every pixel has the sample to detector
    distance as first coordinate and its offsets from the central pixel
    as the other two (x negated), and the central pixel, row cy and
    column cx, is (sdd, 0, 0). *)
Theorem get_pixels_central (H W : nat) (sdd : R) (cx cy : Z) (y x : grid) :
  has_shape H W y -> has_shape H W x ->
  (0 <= cx < Z.of_nat W)%Z -> (0 <= cy < Z.of_nat H)%Z ->
  exists pixels,
    get_pixels_of sdd (cx, cy) y x = Ok pixels /\ arr3_shape H W pixels /\
    pixel_at pixels (Z.to_nat cy) (Z.to_nat cx) = (sdd, 0, 0) /\
    forall i j, (i < H)%nat -> (j < W)%nat ->
      pixel_at pixels i j
      = (sdd,
         - (grid_at x i j - grid_at x (Z.to_nat cy) (Z.to_nat cx)),
         grid_at y i j - grid_at y (Z.to_nat cy) (Z.to_nat cx)).
Proof.
  intros Hy Hx Hcx Hcy.
  destruct (get_pixels_of_at H W sdd cx cy y x Hy Hx Hcx Hcy)
    as (pixels & Hp & Hs & Hat).
  exists pixels. repeat split; try assumption.
  rewrite Hat by lia. entries; ring.
Qed.

Lemma detector_2x2_shape : has_shape 2 2 [[0; 1]; [2; 3]].
Proof. unfold has_shape. simpl. split; [reflexivity|]. repeat constructor. Qed.

Lemma get_pixels_central_witness :
  let y : grid := [[0; 1]; [2; 3]] in
  let x : grid := [[0; 1]; [2; 3]] in
  exists pixels,
    get_pixels_of 1000 (1, 0)%Z y x = Ok pixels /\ arr3_shape 2 2 pixels /\
    pixel_at pixels (Z.to_nat 0) (Z.to_nat 1) = (1000, 0, 0) /\
    forall i j, (i < 2)%nat -> (j < 2)%nat ->
      pixel_at pixels i j
      = (1000,
         - (grid_at x i j - grid_at x (Z.to_nat 0) (Z.to_nat 1)),
         grid_at y i j - grid_at y (Z.to_nat 0) (Z.to_nat 1)).
Proof.
  intros y x.
  apply (get_pixels_central 2 2 1000 1 0 y x detector_2x2_shape detector_2x2_shape);
    simpl; lia.
Defined.

(** X14: a central pixel outside the detector makes [get_pixels] raise
    (IndexError), whether it lies beyond the last row or column or
    before the first counted from the end. *)
Theorem get_pixels_outside (H W : nat) (sdd : R) (cx cy : Z) (y x : grid) :
  has_shape H W y -> has_shape H W x ->
  (Z.of_nat W <= cx \/ cx < - Z.of_nat W \/
   Z.of_nat H <= cy \/ cy < - Z.of_nat H)%Z ->
  exists e, get_pixels_of sdd (cx, cy) y x = Raise e.
Proof.
  intros Hy Hx Hout. unfold get_pixels_of, getitem2. simpl fst. simpl snd.
  assert (Hrow : (Z.of_nat H <= cy \/ cy < - Z.of_nat H)%Z ->
                 exists e, getitem y cy = Raise e).
  { intros Hc. apply getitem_out_of_range. destruct Hy as [-> _]. exact Hc. }
  destruct (getitem y cy) as [row|e] eqn:Hg.
  - simpl.
    assert (Hrl : List.length row = W).
    { destruct Hy as [_ Hr]. rewrite Forall_forall in Hr. apply Hr.
      unfold getitem in Hg.
      destruct ((0 <=? _) && _)%Z%bool; [|discriminate].
      destruct (nth_error y _) eqn:Hn; [|discriminate].
      injection Hg as <-. eapply nth_error_In. exact Hn. }
    assert (Hcol : (Z.of_nat W <= cx \/ cx < - Z.of_nat W)%Z).
    { destruct Hout as [?|[?|Hc]]; auto.
      destruct (Hrow Hc) as [e He]. discriminate. }
    destruct (getitem_out_of_range row cx) as [e He]; [rewrite Hrl; exact Hcol|].
    rewrite He. simpl. eexists. reflexivity.
  - simpl. eexists. reflexivity.
Qed.

Lemma get_pixels_outside_witness :
  exists e, get_pixels_of 1000 (2, 0)%Z [[0; 1]; [2; 3]] [[0; 1]; [2; 3]] = Raise e.
Proof.
  apply (get_pixels_outside 2 2 1000 2 0 _ _ detector_2x2_shape detector_2x2_shape).
  simpl. lia.
Defined.

(** X15: the central pixel carries no momentum transfer.  With the
    pixels of [get_pixels], a positive distance, and the detector at
    rest (P = I), the HKL of the central pixel is (0, 0, 0) for every
    invertible R.UB. *)
Theorem HKL_zero_at_central_pixel (H W : nat) (sdd k : R) (cx cy : Z)
    (y x : grid) (UB R0 RUB_1 : mat) :
  has_shape H W y -> has_shape H W x ->
  (0 <= cx < Z.of_nat W)%Z -> (0 <= cy < Z.of_nat H)%Z -> 0 < sdd ->
  inv (dot R0 UB) = Ok RUB_1 ->
  exists pixels hkl,
    get_pixels_of sdd (cx, cy) y x = Ok pixels /\
    HKLProjection_project (mkPDataFrame pixels k UB R0 identity) = Ok hkl /\
    pixel_at hkl (Z.to_nat cy) (Z.to_nat cx) = (0, 0, 0).
Proof.
  intros Hy Hx Hcx Hcy Hsdd Hinv.
  destruct (get_pixels_of_at H W sdd cx cy y x Hy Hx Hcx Hcy)
    as (pixels & Hp & Hs & Hat).
  destruct (HKLProjection_project_at (mkPDataFrame pixels k UB R0 identity)
              H W (Z.to_nat cy) (Z.to_nat cx) RUB_1 Hs ltac:(lia) ltac:(lia) Hinv)
    as (hkl & Hh & _ & Hhat).
  exists pixels, hkl. split; [exact Hp|]. split; [exact Hh|]. rewrite Hhat.
  cbv beta iota delta [pdf_pixels pdf_P pdf_k].
  rewrite Hat by lia.
  replace (- (grid_at x (Z.to_nat cy) (Z.to_nat cx)
              - grid_at x (Z.to_nat cy) (Z.to_nat cx))) with 0 by ring.
  replace (grid_at y (Z.to_nat cy) (Z.to_nat cx)
           - grid_at y (Z.to_nat cy) (Z.to_nat cx)) with 0 by ring.
  unfold hkl_of_pixel. rewrite dot_identity_r, (direction_on_axis sdd Hsdd).
  destruct RUB_1 as [[[[a00 a01] a02] [[a10 a11] a12]] [[a20 a21] a22]].
  cbv beta iota delta [dot_vec vec_sub vec_scale]. entries; ring.
Qed.

Lemma HKL_zero_at_central_pixel_witness :
  exists pixels hkl,
    get_pixels_of 1000 (1, 0)%Z [[0; 1]; [2; 3]] [[0; 1]; [2; 3]] = Ok pixels /\
    HKLProjection_project (mkPDataFrame pixels 3 identity identity identity)
    = Ok hkl /\
    pixel_at hkl (Z.to_nat 0) (Z.to_nat 1) = (0, 0, 0).
Proof.
  apply (HKL_zero_at_central_pixel 2 2 1000 3 1 0 _ _ identity identity identity
           detector_2x2_shape detector_2x2_shape).
  - simpl. lia.
  - simpl. lia.
  - lra.
  - rewrite dot_identity_l. exact inv_identity.
Defined.

End PixelProperties.

Section IndexGridProperties.
Local Open Scope Z_scope.

Lemma length_range n : List.length (range n) = Z.to_nat n.
Proof. unfold range. rewrite length_map, length_seq. reflexivity. Qed.

Lemma nth_range n i d : (i < Z.to_nat n)%nat -> nth i (range n) d = Z.of_nat i.
Proof.
  intros Hi. unfold range.
  rewrite (nth_indep _ d (Z.of_nat 0)) by (rewrite length_map, length_seq; exact Hi).
  rewrite map_nth, seq_nth by exact Hi. reflexivity.
Qed.

Lemma nth_map_in {A B : Type} (f : A -> B) (l : list A) i db da :
  (i < List.length l)%nat -> nth i (map f l) db = f (nth i l da).
Proof.
  revert i. induction l as [|x l IH]; intros [|i] Hi; simpl in *; try lia; auto.
  apply IH. lia.
Qed.

(** X16: the Pixels projection is the grid of pixel indices.  For a
    pixel array of H rows and W columns both outputs have H rows and W
    columns; entry (i, j) of the first is the column j, entry (i, j) of
    the second is the row i. *)
Theorem Pixels_project_indices (pdf : PDataFrame) (H W i j : nat) :
  arr3_shape H W (pdf_pixels pdf) -> (i < H)%nat -> (j < W)%nat ->
  let '(xs, ys) := Pixels_project pdf in
  List.length xs = H /\ List.length ys = H /\
  List.length (nth i xs []) = W /\ List.length (nth i ys []) = W /\
  nth j (nth i xs []) 0 = Z.of_nat j /\ nth j (nth i ys []) 0 = Z.of_nat i.
Proof.
  destruct pdf as [[[p0 p1] p2] k UB R0 P]. simpl pdf_pixels.
  intros (Hp0 & _ & _) Hi Hj.
  cbv beta iota delta [Pixels_project pdf_pixels meshgrid].
  assert (HH : List.length p0 = H) by (destruct Hp0; assumption).
  assert (HW : List.length (hd [] p0) = W).
  { pose proof (has_shape_row H W p0 0 Hp0 ltac:(lia)) as Hr.
    destruct p0; [simpl in HH; lia|exact Hr]. }
  rewrite HH, HW.
  assert (HiH : (i < Z.to_nat (Z.of_nat H))%nat) by lia.
  assert (HjW : (j < Z.to_nat (Z.of_nat W))%nat) by lia.
  repeat split.
  - rewrite length_map, length_range. lia.
  - rewrite length_map, length_range. lia.
  - rewrite (nth_map_in _ _ i [] 0) by (rewrite length_range; lia).
    rewrite length_range. lia.
  - rewrite (nth_map_in _ _ i [] 0) by (rewrite length_range; lia).
    rewrite length_map, length_range. lia.
  - rewrite (nth_map_in _ _ i [] 0) by (rewrite length_range; lia).
    apply nth_range. exact HjW.
  - rewrite (nth_map_in _ _ i [] 0) by (rewrite length_range; lia).
    rewrite (nth_map_in _ _ j 0 0) by (rewrite length_range; lia).
    apply nth_range. exact HiH.
Qed.

Lemma Pixels_project_indices_witness :
  let pdf := mkPDataFrame ([[0; 3]], [[0; 4]], [[0; 0]])%R 1 identity identity
               identity in
  let '(xs, ys) := Pixels_project pdf in
  List.length xs = 1%nat /\ List.length ys = 1%nat /\
  List.length (nth 0 xs []) = 2%nat /\ List.length (nth 0 ys []) = 2%nat /\
  nth 1 (nth 0 xs []) 0 = Z.of_nat 1 /\ nth 1 (nth 0 ys []) 0 = Z.of_nat 0.
Proof.
  intros pdf.
  apply (Pixels_project_indices pdf 1 2 0 1 two_pixel_shape); lia.
Defined.

End IndexGridProperties.

Section FileProperties.
Local Open Scope string_scope.

(** X17: [get_nxclass] returns the first node, in walk order, whose
    NX_class is the one asked for, passing over the nodes without the
    attribute; it returns [None] exactly when no node has the class. *)
Theorem get_nxclass_first (N : Type) (walk_nodes : list N)
    (NX_class : N -> option string) (nxclass : string) :
  match get_nxclass walk_nodes NX_class nxclass with
  | Some node =>
      exists before after,
        walk_nodes = (before ++ node :: after)%list /\
        NX_class node = Some nxclass /\
        Forall (fun m => NX_class m <> Some nxclass) before
  | None => Forall (fun m => NX_class m <> Some nxclass) walk_nodes
  end.
Proof.
  unfold get_nxclass.
  induction walk_nodes as [|n rest IH]; simpl; [constructor|].
  destruct (NX_class n) as [c|] eqn:Hc.
  - destruct (String.eqb_spec nxclass c) as [->|Hne].
    + exists [], rest. repeat split; auto.
    + destruct (find _ rest) as [node|].
      * destruct IH as (before & after & -> & Hn & Hb).
        exists (n :: before), after. repeat split; auto.
        constructor; [congruence | exact Hb].
      * constructor; [congruence | exact IH].
  - destruct (find _ rest) as [node|].
    + destruct IH as (before & after & -> & Hn & Hb).
      exists (n :: before), after. repeat split; auto.
      constructor; [congruence | exact Hb].
    + constructor; [congruence | exact IH].
Qed.

Lemma length_zeros n : String.length (zeros n) = n.
Proof. induction n; simpl; congruence. Qed.

Lemma string_length_app s1 s2 :
  String.length (s1 ++ s2) = (String.length s1 + String.length s2)%nat.
Proof. induction s1; simpl; congruence. Qed.

Lemma length_zfill s width :
  String.length (zfill s width) = Nat.max (String.length s) width.
Proof.
  unfold zfill. destruct s as [|c rest].
  - rewrite length_zeros. simpl. lia.
  - set (n := String.length (String c rest)).
    assert (Hn : n = S (String.length rest)) by reflexivity.
    destruct (Ascii.eqb c "+" || Ascii.eqb c "-")%bool.
    + change (String.length (String c (zeros (width - n) ++ rest)))
        with (S (String.length (zeros (width - n) ++ rest))).
      rewrite string_length_app, length_zeros. lia.
    + rewrite string_length_app, length_zeros. fold n. lia.
Qed.

(** X18: [get_filename] returns a name only if the file exists, and
    raises ConfigError otherwise; the name is the template formatted
    with the scan number as a text of at least five characters. *)
Theorem get_filename_checked (format : string -> string -> string)
    (path_exists : string -> bool) (nexusfile : string) (scanno : Z) :
  let text := zfill (str scanno) 5 in
  (5 <= String.length text)%nat /\
  match get_filename format path_exists nexusfile scanno with
  | Ok filename => filename = format nexusfile text /\ path_exists filename = true
  | Raise e =>
      exn_kind e = ConfigError /\ path_exists (format nexusfile text) = false
  end.
Proof.
  intros text. split.
  - unfold text. rewrite length_zfill. lia.
  - unfold get_filename. fold text.
    destruct (path_exists (format nexusfile text)) eqn:He; simpl; auto.
Qed.

End FileProperties.

Section DestinationProperties.
Local Open Scope Z_scope.

Lemma fold_min_le rest a : fold_left Z.min rest a <= a.
Proof.
  revert a. induction rest as [|x rest IH]; simpl; intros a; [lia|].
  specialize (IH (Z.min a x)). lia.
Qed.

Lemma fold_min_lower rest a s : In s rest -> fold_left Z.min rest a <= s.
Proof.
  revert a. induction rest as [|x rest IH]; simpl; intros a Hin; [contradiction|].
  destruct Hin as [->|Hin].
  - pose proof (fold_min_le rest (Z.min a s)). lia.
  - apply IH. exact Hin.
Qed.

Lemma fold_min_in rest a : In (fold_left Z.min rest a) (a :: rest).
Proof.
  revert a. induction rest as [|x rest IH]; simpl; intros a; [auto|].
  destruct (IH (Z.min a x)) as [E|Hin].
  - rewrite <- E. destruct (Z.min_spec a x) as [[_ ->]|[_ ->]]; auto.
  - auto.
Qed.

Lemma fold_max_ge rest a : a <= fold_left Z.max rest a.
Proof.
  revert a. induction rest as [|x rest IH]; simpl; intros a; [lia|].
  specialize (IH (Z.max a x)). lia.
Qed.

Lemma fold_max_upper rest a s : In s rest -> s <= fold_left Z.max rest a.
Proof.
  revert a. induction rest as [|x rest IH]; simpl; intros a Hin; [contradiction|].
  destruct Hin as [->|Hin].
  - pose proof (fold_max_ge rest (Z.max a s)). lia.
  - apply IH. exact Hin.
Qed.

Lemma fold_max_in rest a : In (fold_left Z.max rest a) (a :: rest).
Proof.
  revert a. induction rest as [|x rest IH]; simpl; intros a; [auto|].
  destruct (IH (Z.max a x)) as [E|Hin].
  - rewrite <- E. destruct (Z.max_spec a x) as [[_ ->]|[_ ->]]; auto.
  - auto.
Qed.

(** X19: [get_destination_options] gives [False] only for an empty
    command; otherwise [first] and [last] are scans of the parsed
    range and bound every scan of it; and a command that parses to no
    scan at all raises ValueError. *)
Theorem get_destination_options_bounds
    (parse_multi_range : string -> result (list Z)) (command : list string) :
  let text := replace_spaces (join "," command) in
  match get_destination_options parse_multi_range command with
  | Ok None => command = []
  | Ok (Some (first, last, _)) =>
      exists scans,
        parse_multi_range text = Ok scans /\
        In first scans /\ In last scans /\
        forall s, In s scans -> first <= s <= last
  | Raise e =>
      command <> [] /\
      (parse_multi_range text = Raise e \/
       (parse_multi_range text = Ok [] /\ exn_kind e = ValueError))
  end.
Proof.
  intros text. unfold get_destination_options.
  destruct command as [|c command]; [reflexivity|]. fold text.
  destruct (parse_multi_range text) as [[|scan0 rest]|e] eqn:Hp; simpl.
  - split; [discriminate|]. right. split; reflexivity.
  - exists (scan0 :: rest). split; [reflexivity|].
    split; [apply fold_min_in|]. split; [apply fold_max_in|].
    intros s [<-|Hin].
    + split; [apply fold_min_le | apply fold_max_ge].
    + split; [apply fold_min_lower | apply fold_max_upper]; exact Hin.
  - split; [discriminate|]. left. reflexivity.
Qed.

End DestinationProperties.

(* ================================================================== *)
(** * Further properties: channels and frames *)
(* ================================================================== *)

Section ChannelProperties.
Local Open Scope string_scope.

Variable V : Type.

(** The nodes of an explicit graph, one by one. *)
Ltac graph_nodes Hn :=
  apply existsb_exists in Hn; destruct Hn as (node & Hin & Heq);
  simpl in Hin;
  repeat (destruct Hin as [<-|Hin];
          [apply String.eqb_eq in Heq; simpl in Heq; subst; simpl; auto 10|]);
  contradiction.

(** X20: [get_values] hands out the angles in the order of the chains.
    For each class there is a supported diffractometer whose graph has
    for nodes exactly the keys of the class's HPATH other than "image",
    and whenever [get_values] returns, its sample values are the
    channels named by the sample chain of [get_axes], in that order,
    and its detector values those named by the detector chain. *)
Theorem get_values_follow_chains (cls : instrument) (index : Z)
    (h5_nodes : h5_dict V) (image : V) (s_values d_values : list V) :
  get_values cls index h5_nodes = Ok (image, s_values, d_values) ->
  exists name axes,
    get_axes name = Ok axes /\
    (forall key, In key (map fst (HPATH cls)) <->
                 key = "image" \/ has_node (graph axes) key = true) /\
    Forall2 (fun key v => h5_item h5_nodes key index = Ok v)
            (sample axes) s_values /\
    Forall2 (fun key v => h5_item h5_nodes key index = Ok v)
            (detector axes) d_values.
Proof.
  intros Hv.
  assert (Hfly : FlyScanUHV_get_values index h5_nodes
                 = Ok (image, s_values, d_values) ->
                 exists mu omega delta gamma,
                   h5_item h5_nodes "mu" index = Ok mu /\
                   h5_item h5_nodes "omega" index = Ok omega /\
                   h5_item h5_nodes "delta" index = Ok delta /\
                   h5_item h5_nodes "gamma" index = Ok gamma /\
                   s_values = [mu; omega] /\ d_values = [mu; delta; gamma]).
  { unfold FlyScanUHV_get_values, bind.
    destruct (h5_item h5_nodes "image" index); [|discriminate].
    destruct (h5_item h5_nodes "mu" index) as [mu|]; [|discriminate].
    destruct (h5_item h5_nodes "omega" index) as [omega|]; [|discriminate].
    destruct (h5_item h5_nodes "delta" index) as [delta|]; [|discriminate].
    destruct (h5_item h5_nodes "gamma" index) as [gamma|]; [|discriminate].
    intros Heq. injection Heq as _ <- <-.
    exists mu, omega, delta, gamma. repeat split. }
  assert (Hzaxis : forall hpath : list (string * string),
            map fst hpath = ["image"; "mu"; "omega"; "delta"; "gamma"] ->
            FlyScanUHV_get_values index h5_nodes
            = Ok (image, s_values, d_values) ->
            exists name axes,
              get_axes name = Ok axes /\
              (forall key, In key (map fst hpath) <->
                           key = "image" \/ has_node (graph axes) key = true) /\
              Forall2 (fun key v => h5_item h5_nodes key index = Ok v)
                      (sample axes) s_values /\
              Forall2 (fun key v => h5_item h5_nodes key index = Ok v)
                      (detector axes) d_values).
  { intros hpath Hk Hf.
    destruct (Hfly Hf) as (mu & omega & delta & gamma & Hmu & Hom & Hde & Hga
                           & -> & ->).
    exists ZAXIS. eexists. split; [vm_compute; reflexivity|].
    rewrite Hk. split; [|split].
    - intros key. split.
      + intros [<-|[<-|[<-|[<-|[<-|[]]]]]];
          [left; reflexivity | right; reflexivity ..].
      + intros [->|Hn]; [simpl; auto|]. graph_nodes Hn.
    - repeat constructor; assumption.
    - repeat constructor; assumption. }
  destruct cls.
  - apply (Hzaxis (HPATH FlyScanUHV)); [reflexivity | exact Hv].
  - apply (Hzaxis (HPATH FlyScanUHV2)); [reflexivity | exact Hv].
  - simpl in Hv. unfold SBSMedH_get_values, bind in Hv.
    destruct (h5_item h5_nodes "image" index); [|discriminate].
    destruct (h5_item h5_nodes "pitch" index) as [pitch|] eqn:Hpi; [|discriminate].
    destruct (h5_item h5_nodes "mu" index) as [mu|] eqn:Hmu; [|discriminate].
    destruct (h5_item h5_nodes "gamma" index) as [gamma|] eqn:Hga; [|discriminate].
    destruct (h5_item h5_nodes "delta" index) as [delta|] eqn:Hde; [|discriminate].
    injection Hv as _ <- <-.
    exists SOLEIL_SIXS_MED1_2. eexists. split; [vm_compute; reflexivity|].
    split; [|split].
    + intros key. split.
      * intros [<-|[<-|[<-|[<-|[<-|[]]]]]];
          [left; reflexivity | right; reflexivity ..].
      * intros [->|Hn]; [simpl; auto|]. graph_nodes Hn.
    + repeat constructor; assumption.
    + repeat constructor; assumption.
Qed.

(** X21: the keys of a class's HPATH are the keys its [get_values]
    reads.  On nodes built from the HPATH of the class, [get_values]
    raises no KeyError: it returns as soon as every node can be read at
    the index. *)
Theorem get_values_finds_its_keys (cls : instrument)
    (get_child : string -> result (h5_node V)) (h5_nodes : h5_dict V)
    (index : Z) :
  build_h5_nodes get_child (HPATH cls) = Ok h5_nodes ->
  (forall key node, In (key, node) h5_nodes -> exists v, node index = Ok v) ->
  exists values, get_values cls index h5_nodes = Ok values.
Proof.
  intros Hb Hread. unfold build_h5_nodes in Hb.
  destruct cls; simpl in Hb; unfold bind in Hb;
    repeat match type of Hb with
           | context [get_child ?name] =>
               destruct (get_child name) as [?node|]; [|discriminate]
           end;
    injection Hb as <-;
    unfold get_values, FlyScanUHV_get_values, SBSMedH_get_values, h5_item;
    simpl;
    repeat match goal with
           | |- context [bind (?n index) _] =>
               let v := fresh "v" in
               let Hv := fresh "Hv" in
               destruct (Hread _ n ltac:(simpl; auto 10)) as [v Hv];
               rewrite Hv; simpl
           end;
    eexists; reflexivity.
Qed.

End ChannelProperties.

Lemma get_values_follow_chains_witness :
  let h5_nodes : h5_dict Z :=
    [("image", fun _ => Ok 0%Z); ("mu", fun _ => Ok 1%Z);
     ("omega", fun _ => Ok 2%Z); ("delta", fun _ => Ok 3%Z);
     ("gamma", fun _ => Ok 4%Z)]%string in
  exists name axes,
    get_axes name = Ok axes /\
    (forall key, In key (map fst (HPATH FlyScanUHV)) <->
                 key = "image"%string \/ has_node (graph axes) key = true) /\
    Forall2 (fun key v => h5_item h5_nodes key 7 = Ok v)
            (sample axes) [1; 2]%Z /\
    Forall2 (fun key v => h5_item h5_nodes key 7 = Ok v)
            (detector axes) [1; 3; 4]%Z.
Proof.
  intros h5_nodes.
  apply (get_values_follow_chains Z FlyScanUHV 7 h5_nodes 0%Z). reflexivity.
Defined.

Lemma get_values_finds_its_keys_witness :
  exists values,
    get_values SBSMedH 7
      [("image", fun _ => Ok 0%Z); ("pitch", fun _ => Ok 0%Z);
       ("mu", fun _ => Ok 0%Z); ("gamma", fun _ => Ok 0%Z);
       ("delta", fun _ => Ok 0%Z)]%string
    = Ok values.
Proof.
  apply (get_values_finds_its_keys Z SBSMedH (fun _ => Ok (fun _ => Ok 0%Z))).
  - reflexivity.
  - intros key node Hin. simpl in Hin.
    repeat (destruct Hin as [Heq|Hin];
            [injection Heq as _ <-; exists 0%Z; reflexivity|]).
    contradiction.
Defined.

Section FrameRotationProperties.
Local Open Scope R_scope.

Lemma zip_M_of_list values axes vecs :
  Forall2 axis_ok axes vecs ->
  map_result (fun m => m) (zip_with M_of_list values axes)
  = Ok (zip_with M values vecs).
Proof.
  intros Hax. revert values.
  induction Hax as [|u v axes vecs [_ Hu] _ IH]; intros [|x values]; simpl;
    try reflexivity.
  rewrite Hu. simpl. rewrite IH. reflexivity.
Qed.

Lemma chain_rotation_orthogonal g chain values axes vecs :
  rotation_axes g chain = Ok axes -> Forall2 axis_ok axes vecs ->
  values <> [] -> vecs <> [] ->
  exists m, chain_rotation g chain values = Ok m /\ orthogonal m.
Proof.
  intros Hra Hax Hv Hvec. unfold chain_rotation. rewrite Hra. simpl.
  rewrite (zip_M_of_list _ axes vecs Hax). simpl.
  assert (Hunit : Forall unit_vector vecs).
  { clear - Hax. induction Hax as [|u v axes vecs [Hu _] _ IH]; constructor; auto. }
  destruct values as [|x values]; [congruence|].
  destruct vecs as [|v vecs]; [congruence|].
  simpl. eexists. split; [reflexivity|].
  pose proof (orthogonal_zip_M (radians x :: map radians values) (v :: vecs) Hunit)
    as Ho.
  simpl in Ho. inversion Ho; subst. apply orthogonal_fold; assumption.
Qed.

Lemma axis_ok_z : axis_ok [0; 0; 1]%Z (0, 0, 1).
Proof. split; [simpl; lra | reflexivity]. Qed.

Lemma axis_ok_minus_y : axis_ok [0; -1; 0]%Z (0, -1, 0).
Proof. split; [simpl; lra | reflexivity]. Qed.

Lemma QxQyQz_Ok pixels k ub R0 P :
  orthogonal R0 ->
  exists q, QxQyQzProjection_project (mkPDataFrame pixels k ub R0 P) = Ok q.
Proof.
  intros Ho. simpl. fold diag_2pi. rewrite (inv_rotation_2pi R0 Ho). simpl.
  destruct (scale _ k) as [[qx qy] qz]. eexists. reflexivity.
Qed.

(** X22: the rotations of a frame are rotations.  For the axes of a
    supported diffractometer and at least one sample and one detector
    angle, [process_image] gets its R and P without an exception, both
    are orthogonal for all angle values, with or without the detector
    roll, and the Qx/Qy/Qz projection of such a frame never raises. *)
Theorem frame_rotations_orthogonal (name : string) (axes : Axes)
    (detrot : option R) (s_values d_values : list R) :
  get_axes name = Ok axes -> s_values <> [] -> d_values <> [] ->
  exists R0 P,
    frame_rotations axes detrot s_values d_values = Ok (R0, P) /\
    dot R0 (transpose R0) = identity /\ dot P (transpose P) = identity /\
    forall pixels k ub,
      exists q, QxQyQzProjection_project (mkPDataFrame pixels k ub R0 P) = Ok q.
Proof.
  intros Hax Hs Hd.
  assert (Hchains :
    exists sa sv da dv,
      rotation_axes (graph axes) (sample axes) = Ok sa /\ Forall2 axis_ok sa sv /\
      sv <> [] /\
      rotation_axes (graph axes) (detector axes) = Ok da /\ Forall2 axis_ok da dv /\
      dv <> []).
  { unfold get_axes in Hax.
    destruct (String.eqb name ZAXIS).
    - vm_compute in Hax. injection Hax as <-.
      exists [[0; 0; 1]; [0; -1; 0]]%Z, [(0, 0, 1); (0, -1, 0)],
             [[0; 0; 1]; [0; -1; 0]; [0; 0; 1]]%Z,
             [(0, 0, 1); (0, -1, 0); (0, 0, 1)].
      split; [reflexivity|].
      split; [repeat (constructor;
                      [first [exact axis_ok_z | exact axis_ok_minus_y]|]);
              constructor|].
      split; [discriminate|]. split; [reflexivity|].
      split; [repeat (constructor;
                      [first [exact axis_ok_z | exact axis_ok_minus_y]|]);
              constructor|].
      discriminate.
    - destruct (String.eqb name SOLEIL_SIXS_MED1_2); [|discriminate].
      vm_compute in Hax. injection Hax as <-.
      exists [[0; -1; 0]; [0; 0; 1]]%Z, [(0, -1, 0); (0, 0, 1)],
             [[0; -1; 0]; [0; 0; 1]; [0; -1; 0]]%Z,
             [(0, -1, 0); (0, 0, 1); (0, -1, 0)].
      split; [reflexivity|].
      split; [repeat (constructor;
                      [first [exact axis_ok_z | exact axis_ok_minus_y]|]);
              constructor|].
      split; [discriminate|]. split; [reflexivity|].
      split; [repeat (constructor;
                      [first [exact axis_ok_z | exact axis_ok_minus_y]|]);
              constructor|].
      discriminate. }
  destruct Hchains as (sa & sv & da & dv & Hsa & Hsv & Hsne & Hda & Hdv & Hdne).
  destruct (chain_rotation_orthogonal _ _ s_values sa sv Hsa Hsv Hs Hsne)
    as (R0 & HR & HoR).
  destruct (chain_rotation_orthogonal _ _ d_values da dv Hda Hdv Hd Hdne)
    as (P & HP & HoP).
  unfold frame_rotations, bind. rewrite HR, HP.
  eexists. eexists. split; [reflexivity|].
  split; [exact HoR|]. split.
  - destruct detrot as [angle|]; [|exact HoP].
    apply orthogonal_dot; [exact HoP|]. apply M_orthogonal. unfold unit_vector. lra.
  - intros pixels k ub. apply QxQyQz_Ok. exact HoR.
Qed.

End FrameRotationProperties.

Lemma frame_rotations_orthogonal_witness :
  exists axes R0 P,
    get_axes ZAXIS = Ok axes /\
    frame_rotations axes (Some 2%R) [PI; PI] [PI; PI; PI] = Ok (R0, P) /\
    dot R0 (transpose R0) = identity /\ dot P (transpose P) = identity.
Proof.
  destruct get_axes_ZAXIS as [g Hg].
  destruct (frame_rotations_orthogonal ZAXIS _ (Some 2%R) [PI; PI] [PI; PI; PI] Hg
              ltac:(discriminate) ltac:(discriminate))
    as (R0 & P & Hf & HR & HP & _).
  eexists. exists R0, P. split; [exact Hg|]. split; [exact Hf|].
  split; assumption.
Defined.

Section RollProperties.
Local Open Scope R_scope.

(** X23: the detector roll.  With unit detector axes the detector
    rotation stays orthogonal with any [detrot], and a [detrot] of 0
    degrees gives the rotation that no [detrot] gives. *)
Theorem detector_rotation_roll (detrot : option R) (d_values : list R)
    (d_axes : list vec) (P : mat) :
  Forall unit_vector d_axes ->
  detector_rotation detrot d_values d_axes = Ok P ->
  dot P (transpose P) = identity /\
  detector_rotation (Some 0) d_values d_axes
  = detector_rotation None d_values d_axes.
Proof.
  intros Hax HP. split.
  - unfold detector_rotation, bind in HP.
    destruct (reduce dot (zip_with M (map radians d_values) d_axes))
      as [P0|] eqn:Hr; [|discriminate].
    assert (Ho : orthogonal P0).
    { apply (orthogonal_reduce _ _ (orthogonal_zip_M _ _ Hax) Hr). }
    destruct detrot as [angle|]; injection HP as <-; [|exact Ho].
    apply orthogonal_dot; [exact Ho|].
    refine (M_orthogonal (radians angle) (1, 0, 0) _).
    unfold unit_vector. lra.
  - unfold detector_rotation, bind.
    destruct (reduce dot (zip_with M (map radians d_values) d_axes)) as [P0|];
      [|reflexivity].
    replace (radians 0) with 0 by (unfold radians; field).
    rewrite M_0, dot_identity_r. reflexivity.
Qed.

Lemma detector_rotation_roll_witness :
  let P := dot (M (radians 90) (0, 0, 1)) (M (radians 30) (1, 0, 0)) in
  dot P (transpose P) = identity /\
  detector_rotation (Some 0) [90] [(0, 0, 1)]
  = detector_rotation None [90] [(0, 0, 1)].
Proof.
  intros P.
  apply (detector_rotation_roll (Some 30) [90] [(0, 0, 1)] P).
  - repeat constructor. unfold unit_vector. lra.
  - reflexivity.
Defined.

End RollProperties.

Section JobRunProperties.
Local Open Scope Z_scope.

Variables File D Px Fr : Type.
Variable be : Backend File D Px Fr.

Lemma In_range n i : In i (range n) <-> 0 <= i < n.
Proof.
  unfold range. rewrite in_map_iff. split.
  - intros (k & <- & Hk). apply in_seq in Hk. lia.
  - intros Hi. exists (Z.to_nat i). split; [lia|]. apply in_seq. lia.
Qed.

Lemma In_range_from a b i : In i (range_from a b) <-> a <= i < b.
Proof.
  unfold range_from. rewrite in_map_iff. split.
  - intros (k & <- & Hk). apply In_range in Hk. lia.
  - intros Hi. exists (i - a). split; [lia|]. apply In_range. lia.
Qed.

Lemma length_range_from a b : List.length (range_from a b) = Z.to_nat (b - a).
Proof. unfold range_from. rewrite length_map. apply length_range. Qed.

Lemma process_points_all dataframe pixels indices (frame : Z -> Fr) :
  (forall i, In i indices -> process_image be i dataframe pixels = Ok (frame i)) ->
  process_points be dataframe pixels indices = mkTrace (map frame indices) None.
Proof.
  induction indices as [|i indices IH]; simpl; intros Hall; [reflexivity|].
  rewrite (Hall i) by auto. rewrite IH by auto. reflexivity.
Qed.

Lemma process_dataframes_all job dfs (pixels : D -> Px) (frame : D -> Z -> Fr) :
  (forall df, In df dfs -> get_pixels be df = Ok (pixels df)) ->
  (forall df i, In df dfs -> firstpoint job <= i <= lastpoint job ->
     process_image be i df (pixels df) = Ok (frame df i)) ->
  process_dataframes be job dfs
  = mkTrace (flat_map (fun df => map (frame df)
                         (range_from (firstpoint job) (lastpoint job + 1))) dfs)
            None.
Proof.
  induction dfs as [|df dfs IH]; simpl; intros Hpx Hall; [reflexivity|].
  rewrite (Hpx df) by auto.
  rewrite (process_points_all df (pixels df) _ (frame df)).
  - simpl. rewrite IH by auto. reflexivity.
  - intros i Hi. apply In_range_from in Hi. apply Hall; [auto|lia].
Qed.

(** X24: a job whose points all process.  When the file opens, the
    data groups are read and every point from [firstpoint] to
    [lastpoint] of every group gives a frame, [process_job] yields
    those frames, group by group and in point order within a group,
    and raises nothing: one frame for each point of each group (none at
    all when [lastpoint] is below [firstpoint]). *)
Theorem process_job_all_points (self : SIXS) (job : Job) (scan_file : File)
    (dfs : list D) (pixels : D -> Px) (frame : D -> Z -> Fr) :
  open_scan be (scan job) = Ok scan_file ->
  dataframes be scan_file = Ok dfs ->
  (forall df, In df dfs -> get_pixels be df = Ok (pixels df)) ->
  (forall df i, In df dfs -> firstpoint job <= i <= lastpoint job ->
     process_image be i df (pixels df) = Ok (frame df i)) ->
  process_job be self job
  = mkTrace (flat_map (fun df => map (frame df)
                         (range_from (firstpoint job) (lastpoint job + 1))) dfs)
            None
  /\ List.length (yielded (process_job be self job))
     = (List.length dfs * Z.to_nat (lastpoint job + 1 - firstpoint job))%nat.
Proof.
  intros Ho Hd Hpx Hall.
  assert (Heq : process_job be self job
    = mkTrace (flat_map (fun df => map (frame df)
                           (range_from (firstpoint job) (lastpoint job + 1))) dfs)
              None).
  { unfold process_job. rewrite Ho, Hd.
    rewrite (process_dataframes_all job dfs pixels frame Hpx Hall). reflexivity. }
  split; [exact Heq|]. rewrite Heq. simpl. clear.
  induction dfs as [|df dfs IH]; simpl; [reflexivity|].
  rewrite length_app, length_map, length_range_from, IH. reflexivity.
Qed.

End JobRunProperties.

Lemma process_job_all_points_witness :
  let be := mkBackend (fun _ => Ok tt) (fun _ => Ok [tt; tt]) (fun _ => Ok tt)
              (fun index _ _ => Ok index) in
  process_job be SIXS_attributes (mkJob 7 3 5 3)
  = mkTrace (flat_map (fun df : unit => map (fun i : Z => i)
                         (range_from 3 (5 + 1))) [tt; tt])
            None
  /\ List.length (yielded (process_job be SIXS_attributes (mkJob 7 3 5 3)))
     = (List.length [tt; tt] * Z.to_nat (5 + 1 - 3))%nat.
Proof.
  intros be.
  apply (process_job_all_points unit unit unit Z be SIXS_attributes (mkJob 7 3 5 3)
           tt [tt; tt] (fun _ => tt) (fun _ i => i)); reflexivity.
Defined.

Section MoreConfigurationProperties.
Local Open Scope string_scope.

Lemma dict_get_remove d k key :
  dict_get (dict_remove d k) key
  = if String.eqb k key then None else dict_get d key.
Proof.
  destruct (String.eqb_spec k key) as [<-|Hne].
  - unfold dict_remove. induction d as [|[k' v] d IH]; simpl; [reflexivity|].
    destruct (String.eqb_spec k' k) as [->|Hk]; simpl; [exact IH|].
    destruct (String.eqb_spec k' k); [contradiction|exact IH].
  - apply dict_get_remove_other. congruence.
Qed.

Variable B : Type.
Variable env : ConfigEnv B.

(** Brings the lookups of the next option to the dict [config1]. *)
Ltac norm_config Hp :=
  cbn beta iota zeta in Hp; repeat rewrite dict_get_remove in Hp; simpl in Hp.

(** The term the next step of [parse_config] branches on. *)
Ltac scrutinee t :=
  lazymatch t with
  | match ?y with _ => _ end => scrutinee y
  | _ => t
  end.

Ltac config_step Hp :=
  lazymatch type of Hp with
  | ?lhs = _ =>
      lazymatch lhs with
      | match ?y with _ => _ end =>
          let s := scrutinee y in destruct s eqn:?
      end
  end.

(** What a successful [parse_config] went through. *)
Lemma parse_config_Ok config c rest config1 b :
  parse_config env config = Ok (c, rest) ->
  super_parse_config env config = Ok (config1, b) ->
  exists xm ym nf prv sddt sddv cpt cpv dr,
    parse_multi_range env (dict_get config1 "xmask") = Ok xm /\
    parse_multi_range env (dict_get config1 "ymask") = Ok ym /\
    dict_get config1 "nexusfile" = Some nf /\
    match dict_get config1 "pr" with
    | None => prv = None
    | Some text => if String.eqb text "" then prv = None
                   else exists t, parse_tuple env text = Ok t /\ prv = Some t
    end /\
    dict_get config1 "sdd" = Some sddt /\ float_of_string env sddt = Ok sddv /\
    dict_get config1 "centralpixel" = Some cpt /\ parse_tuple env cpt = Ok cpv /\
    match dict_get config1 "detrot" with
    | None => dr = None
    | Some text =>
        match float_of_string env text with
        | Ok x => dr = Some x
        | Raise e => exn_kind e = ValueError /\ dr = None
        end
    end /\
    c = mkConfig b (as_selection xm) (as_selection ym) nf prv sddv cpv
                 (dict_get config1 "maskmatrix") dr /\
    rest = fold_left dict_remove option_names config1.
Proof.
  intros Hp Hsup.
  unfold parse_config, parse_config_head, parse_detrot, pop, pop_default, bind,
    is_ValueError in Hp.
  rewrite Hsup in Hp.
  repeat (norm_config Hp; config_step Hp; try discriminate).
  all: norm_config Hp; injection Hp as <- <-.
  all: do 9 eexists; repeat split; try reflexivity; try eassumption.
  all: try (eexists; split; reflexivity).
Qed.

(** X25: on success every field of the configuration is the parsed
    text of its option, read from the dict the parent's [parse_config]
    left: the required options nexusfile, sdd and centralpixel were in
    it, maskmatrix is its entry or None, and detrot is None or the
    float of its text. *)
Theorem parse_config_fields (config : dict) (c : Config B) (rest config1 : dict)
    (b : B) :
  parse_config env config = Ok (c, rest) ->
  super_parse_config env config = Ok (config1, b) ->
  base c = b /\
  dict_get config1 "nexusfile" = Some (nexusfile c) /\
  (exists text, dict_get config1 "sdd" = Some text /\
                float_of_string env text = Ok (sdd c)) /\
  (exists text, dict_get config1 "centralpixel" = Some text /\
                parse_tuple env text = Ok (centralpixel c)) /\
  maskmatrix c = dict_get config1 "maskmatrix" /\
  (exists m, parse_multi_range env (dict_get config1 "xmask") = Ok m /\
             xmask c = as_selection m) /\
  (exists m, parse_multi_range env (dict_get config1 "ymask") = Ok m /\
             ymask c = as_selection m) /\
  match detrot c with
  | Some x => exists text, dict_get config1 "detrot" = Some text /\
                           float_of_string env text = Ok x
  | None => dict_get config1 "detrot" = None \/
            exists text e, dict_get config1 "detrot" = Some text /\
                           float_of_string env text = Raise e /\
                           exn_kind e = ValueError
  end.
Proof.
  intros Hp Hsup.
  destruct (parse_config_Ok _ _ _ _ _ Hp Hsup)
    as (xm & ym & nf & prv & sddt & sddv & cpt & cpv & dr
        & Hxm & Hym & Hnf & _ & Hsddt & Hsddv & Hcpt & Hcpv & Hdr & -> & _).
  simpl. repeat split; eauto.
  destruct (dict_get config1 "detrot") as [text|].
  - destruct (float_of_string env text) as [x|e] eqn:Hf.
    + subst dr. exists text. split; [reflexivity | exact Hf].
    + destruct Hdr as [Hk ->]. right. exists text, e. repeat split; assumption.
  - subst dr. left. reflexivity.
Qed.

(** X26: [parse_config] takes its own options out of the dict and no
    others: after it none of the eight option names is left, and every
    other key holds what the parent's [parse_config] left in it. *)
Theorem parse_config_consumes (config : dict) (c : Config B) (rest config1 : dict)
    (b : B) (key : string) :
  parse_config env config = Ok (c, rest) ->
  super_parse_config env config = Ok (config1, b) ->
  dict_get rest key
  = if existsb (String.eqb key) option_names then None else dict_get config1 key.
Proof.
  intros Hp Hsup.
  destruct (parse_config_Ok _ _ _ _ _ Hp Hsup)
    as (xm & ym & nf & prv & sddt & sddv & cpt & cpv & dr
        & _ & _ & _ & _ & _ & _ & _ & _ & _ & _ & ->).
  unfold option_names. simpl fold_left. simpl existsb.
  repeat rewrite dict_get_remove.
  repeat match goal with
         | |- context [String.eqb ?a key] =>
             rewrite (String.eqb_sym a key);
             destruct (String.eqb_spec key a) as [->|?]; [reflexivity|]
         end.
  reflexivity.
Qed.

End MoreConfigurationProperties.

Lemma parse_config_fields_witness :
  let env := mkConfigEnv (fun config => Ok (config, tt)) (fun _ => Ok None)
               (fun _ => Ok (10, 20)%Z)
               (fun text => if String.eqb text "1.5"%string then Ok 1.5%R
                            else Raise (mkExn ValueError [text])) in
  let config := [("nexusfile", "scan_{scanno}.nxs"); ("sdd", "1.5");
                 ("centralpixel", "10,20"); ("detrot", "1.5");
                 ("other", "kept")]%string in
  let c := mkConfig tt slice_None slice_None "scan_{scanno}.nxs"%string None
             1.5%R (10, 20)%Z None (Some 1.5%R) in
  base c = tt /\
  dict_get config "nexusfile" = Some (nexusfile c) /\
  (exists text, dict_get config "sdd" = Some text /\
                float_of_string env text = Ok (sdd c)) /\
  (exists text, dict_get config "centralpixel" = Some text /\
                parse_tuple env text = Ok (centralpixel c)) /\
  maskmatrix c = dict_get config "maskmatrix" /\
  (exists m, parse_multi_range env (dict_get config "xmask") = Ok m /\
             xmask c = as_selection m) /\
  (exists m, parse_multi_range env (dict_get config "ymask") = Ok m /\
             ymask c = as_selection m) /\
  match detrot c with
  | Some x => exists text, dict_get config "detrot" = Some text /\
                           float_of_string env text = Ok x
  | None => dict_get config "detrot" = None \/
            exists text e, dict_get config "detrot" = Some text /\
                           float_of_string env text = Raise e /\
                           exn_kind e = ValueError
  end.
Proof.
  intros env config c.
  apply (parse_config_fields unit env config c [("other", "kept")]%string config tt);
    reflexivity.
Defined.

Lemma parse_config_consumes_witness :
  let env := mkConfigEnv (fun config => Ok (config, tt)) (fun _ => Ok None)
               (fun _ => Ok (10, 20)%Z)
               (fun text => if String.eqb text "1.5"%string then Ok 1.5%R
                            else Raise (mkExn ValueError [text])) in
  let config := [("nexusfile", "scan_{scanno}.nxs"); ("sdd", "1.5");
                 ("centralpixel", "10,20"); ("detrot", "1.5");
                 ("other", "kept")]%string in
  dict_get [("other", "kept")]%string "other"
  = if existsb (String.eqb "other") option_names then None
    else dict_get config "other".
Proof.
  intros env config.
  apply (parse_config_consumes unit env config
           (mkConfig tt slice_None slice_None "scan_{scanno}.nxs"%string None
                     1.5%R (10, 20)%Z None (Some 1.5%R))
           [("other", "kept")]%string config tt "other"%string);
    reflexivity.
Defined.

Section MoreMaskLoaderProperties.
Local Open Scope string_scope.

(** X27: [load_matrix] gives [None] only for a [None] filename, and a
    mask only for a file that exists with the extension .txt or .npy,
    the mask being what the reader for that extension returned. *)
Theorem load_matrix_result (fs : FileSystem) (filename : option string) :
  match load_matrix fs filename with
  | Ok None => filename = None
  | Ok (Some mask) =>
      exists f, filename = Some f /\ path_exists fs f = true /\
        ((splitext_ext fs f = ".txt" /\ loadtxt fs f = Ok mask) \/
         (splitext_ext fs f = ".npy" /\ load fs f = Ok mask))
  | Raise e => filename <> None
  end.
Proof.
  destruct filename as [f|]; [|reflexivity]. unfold load_matrix.
  destruct (path_exists fs f) eqn:He; [|discriminate].
  destruct (String.eqb_spec (splitext_ext fs f) ".txt") as [Htxt|_].
  - destruct (loadtxt fs f) as [m|e] eqn:Hl; simpl; [|discriminate].
    exists f. split; [reflexivity|]. split; [exact He|]. left. split; assumption.
  - destruct (String.eqb_spec (splitext_ext fs f) ".npy") as [Hnpy|_];
      [|discriminate].
    destruct (load fs f) as [m|e] eqn:Hl; simpl; [|discriminate].
    exists f. split; [reflexivity|]. split; [exact He|]. right. split; assumption.
Qed.

End MoreMaskLoaderProperties.

Section LastProperties.

(** X28: the real-space coordinates are offsets from the central pixel.
    On the pixels of [get_pixels], [realspace.project] gives two H x W
    arrays: at pixel (i, j) the first is minus the x offset of the pixel
    from the central pixel, the second its y offset, and both are 0 at
    the central pixel. *)
Theorem realspace_of_get_pixels (H W : nat) (sdd k : R) (cx cy : Z)
    (y x : grid) (ub R0 P : mat) :
  has_shape H W y -> has_shape H W x ->
  (0 <= cx < Z.of_nat W)%Z -> (0 <= cy < Z.of_nat H)%Z ->
  exists pixels rx ry,
    get_pixels_of sdd (cx, cy) y x = Ok pixels /\
    realspace_project (mkPDataFrame pixels k ub R0 P) = (rx, ry) /\
    has_shape H W rx /\ has_shape H W ry /\
    grid_at rx (Z.to_nat cy) (Z.to_nat cx) = 0%R /\
    grid_at ry (Z.to_nat cy) (Z.to_nat cx) = 0%R /\
    forall i j, (i < H)%nat -> (j < W)%nat ->
      grid_at rx i j
      = (- (grid_at x i j - grid_at x (Z.to_nat cy) (Z.to_nat cx)))%R /\
      grid_at ry i j
      = (grid_at y i j - grid_at y (Z.to_nat cy) (Z.to_nat cx))%R.
Proof.
  intros Hy Hx Hcx Hcy.
  destruct (get_pixels_of_at H W sdd cx cy y x Hy Hx Hcx Hcy)
    as ([[p0 p1] p2] & Hp & (_ & H1 & H2) & Hat).
  exists (p0, p1, p2), p1, p2. split; [exact Hp|]. split; [reflexivity|].
  split; [exact H1|]. split; [exact H2|].
  assert (Hpix : forall i j, (i < H)%nat -> (j < W)%nat ->
            grid_at p1 i j
            = (- (grid_at x i j - grid_at x (Z.to_nat cy) (Z.to_nat cx)))%R /\
            grid_at p2 i j
            = (grid_at y i j - grid_at y (Z.to_nat cy) (Z.to_nat cx))%R).
  { intros i j Hi Hj. specialize (Hat i j Hi Hj). unfold pixel_at in Hat.
    injection Hat as _ E1 E2. split; assumption. }
  destruct (Hpix (Z.to_nat cy) (Z.to_nat cx) ltac:(lia) ltac:(lia)) as [E1 E2].
  split; [rewrite E1; ring|]. split; [rewrite E2; ring|]. exact Hpix.
Qed.

Lemma realspace_of_get_pixels_witness :
  let y : grid := [[0; 1]; [2; 3]]%R in
  let x : grid := [[0; 1]; [2; 3]]%R in
  exists pixels rx ry,
    get_pixels_of 1000 (1, 0)%Z y x = Ok pixels /\
    realspace_project (mkPDataFrame pixels 1 identity identity identity)
    = (rx, ry) /\
    has_shape 2 2 rx /\ has_shape 2 2 ry /\
    grid_at rx (Z.to_nat 0) (Z.to_nat 1) = 0%R /\
    grid_at ry (Z.to_nat 0) (Z.to_nat 1) = 0%R /\
    forall i j, (i < 2)%nat -> (j < 2)%nat ->
      grid_at rx i j
      = (- (grid_at x i j - grid_at x (Z.to_nat 0) (Z.to_nat 1)))%R /\
      grid_at ry i j
      = (grid_at y i j - grid_at y (Z.to_nat 0) (Z.to_nat 1))%R.
Proof.
  intros y x.
  apply (realspace_of_get_pixels 2 2 1000 1 1 0 y x identity identity identity
           detector_2x2_shape detector_2x2_shape); simpl; lia.
Defined.

Lemma generate_jobs_scan_scan config get_pointcount scanno :
  Forall (fun j => scan j = scanno)
         (generate_jobs_scan config get_pointcount scanno).
Proof.
  unfold generate_jobs_scan.
  destruct (point_range config get_pointcount scanno) as [start N].
  destruct (over_threshold N (target_weight config)).
  - apply Forall_map. apply Forall_forall. intros s _. reflexivity.
  - repeat constructor.
Qed.

Lemma filter_all {A : Type} (f : A -> bool) l :
  Forall (fun a => f a = true) l -> filter f l = l.
Proof.
  induction 1 as [|a l Ha _ IH]; simpl; [reflexivity|]. rewrite Ha, IH. reflexivity.
Qed.

Lemma filter_none {A : Type} (f : A -> bool) l :
  Forall (fun a => f a = false) l -> filter f l = [].
Proof.
  induction 1 as [|a l Ha _ IH]; simpl; [reflexivity|]. rewrite Ha, IH. reflexivity.
Qed.

(** X29: the jobs of different scans do not mix.  Every job of
    [generate_jobs] names one of the requested scans, and for distinct
    scan numbers the jobs that name a scan are exactly the jobs of that
    scan, in the order its split gave them. *)
Theorem generate_jobs_by_scan (config : JobConfig) (get_pointcount : Z -> Z)
    (scans : list Z) (scanno : Z) :
  NoDup scans -> In scanno scans ->
  Forall (fun j => In (scan j) scans) (generate_jobs config get_pointcount scans) /\
  filter (fun j => (scan j =? scanno)%Z) (generate_jobs config get_pointcount scans)
  = generate_jobs_scan config get_pointcount scanno.
Proof.
  intros Hnd Hin. unfold generate_jobs. split.
  - clear. induction scans as [|s scans IH]; simpl; [constructor|].
    apply Forall_app. split.
    + eapply Forall_impl; [|apply generate_jobs_scan_scan].
      intros j Hj. simpl in Hj. left. symmetry. exact Hj.
    + eapply Forall_impl; [|exact IH]. intros j Hj. right. exact Hj.
  - induction Hnd as [|s scans Hns Hnd IH]; [contradiction|].
    simpl. rewrite filter_app. destruct Hin as [->|Hin].
    + rewrite filter_all.
      * rewrite filter_none; [apply app_nil_r|].
        clear - Hns. induction scans as [|s scans IH]; simpl; [constructor|].
        apply Forall_app. split.
        -- eapply Forall_impl; [|apply generate_jobs_scan_scan].
           intros j Hj. simpl in Hj. rewrite Hj. apply Z.eqb_neq.
           intros ->. apply Hns. left. reflexivity.
        -- apply IH. intros Hin. apply Hns. right. exact Hin.
      * eapply Forall_impl; [|apply generate_jobs_scan_scan].
        intros j Hj. simpl in Hj. rewrite Hj. apply Z.eqb_refl.
    + rewrite filter_none; [apply IH; exact Hin|].
      eapply Forall_impl; [|apply generate_jobs_scan_scan].
      intros j Hj. simpl in Hj. rewrite Hj. apply Z.eqb_neq.
      intros ->. contradiction.
Qed.

Lemma generate_jobs_by_scan_witness :
  let config := mkJobConfig None 30 in
  let get_pointcount := fun s : Z => (if s =? 12 then 100 else 40)%Z in
  Forall (fun j => In (scan j) [12; 13]%Z)
         (generate_jobs config get_pointcount [12; 13]%Z) /\
  filter (fun j => (scan j =? 13)%Z) (generate_jobs config get_pointcount [12; 13]%Z)
  = generate_jobs_scan config get_pointcount 13%Z.
Proof.
  intros config get_pointcount.
  apply (generate_jobs_by_scan config get_pointcount [12; 13]%Z 13%Z).
  - repeat constructor; simpl; intuition discriminate.
  - simpl. auto.
Defined.

Local Open Scope R_scope.

Lemma det_M theta u :
  det (M theta u)
  = let '(u0, u1, u2) := u in
    let n := u0 ^ 2 + u1 ^ 2 + u2 ^ 2 in
    (cos theta + (1 - cos theta) * n)
    * (cos theta * cos theta + sin theta * sin theta * n).
Proof.
  destruct u as [[u0 u1] u2]. unfold M.
  cbv beta iota delta [det]. ring.
Qed.

Lemma det_fold ms m :
  Forall (fun x => det x = 1) ms -> det m = 1 -> det (fold_left dot ms m) = 1.
Proof.
  intros Hms. revert m. induction Hms as [|x ms Hx _ IH]; simpl; intros m Hm.
  - exact Hm.
  - apply IH. rewrite det_dot, Hm, Hx. ring.
Qed.

(** X30: the rotations are proper.  With unit axes the matrix of
    [rotation_matrix] has determinant 1, so it turns the frame and never
    mirrors it. *)
Theorem rotation_matrix_det (values : list R) (axes : list vec) (m : mat) :
  Forall unit_vector axes -> rotation_matrix values axes = Ok m -> det m = 1.
Proof.
  intros Hax Hm.
  assert (HM : forall theta u, unit_vector u -> det (M theta u) = 1).
  { intros theta u Hu. rewrite det_M. destruct u as [[u0 u1] u2].
    unfold unit_vector in Hu. cbv zeta. rewrite Hu.
    pose proof (sin2_cos2 theta) as Hsc. unfold Rsqr in Hsc.
    transitivity (sin theta * sin theta + cos theta * cos theta);
      [ring | exact Hsc]. }
  assert (Hall : Forall (fun x => det x = 1) (zip_with M values axes)).
  { clear Hm. revert values.
    induction Hax as [|u axes Hu _ IH]; intros [|v values]; simpl; constructor.
    - apply HM. exact Hu.
    - apply IH. }
  unfold rotation_matrix in Hm.
  destruct (zip_with M values axes) as [|x ms]; [discriminate|].
  simpl in Hm. injection Hm as <-. inversion Hall; subst.
  apply det_fold; assumption.
Qed.

Lemma rotation_matrix_det_witness :
  det (dot (M (PI / 2) (0, 0, 1)) (M (PI / 3) (0, -1, 0))) = 1.
Proof.
  apply (rotation_matrix_det [PI / 2; PI / 3] [(0, 0, 1); (0, -1, 0)]).
  - repeat constructor; unfold unit_vector; lra.
  - reflexivity.
Defined.

End LastProperties.
